(** * XModem firmware sender of the LA66 flasher (flash_la66.go)

    A shallow embedding of [calculateChecksum], [readWithTimeout],
    [flushSerialBuffer], [xmodemSend] and the reporting part of [main],
    together with the properties of the transfer engine.

    Bytes are integers with the 8-bit wrap-around written out, the
    [int64] byte counter is an integer wrapped to 64 bits, and time is
    counted in milliseconds.  The serial port and the firmware file are
    an explicit world that every operation threads through:

    - the receiver is a list of pending reads, one for each call of
      [readWithTimeout], and a receiver whose list has run out stays
      silent;
    - the clock advances in reads and sleeps only, a write takes no
      time;
    - every write is logged, oldest first;
    - the file is its unread rest, with an optional offset at which
      reading it fails.

    The handshake loop and the data loop, which the source does not
    bound by a count, take fuel; enough fuel always gives a result
    ([xmodemSend_total]) and more fuel never changes it
    ([xmodemSend_mono]).

    Two smaller programs of the repository follow the sender:
    [getGatewayPacket] of the LoRaWAN bridge (main.go), and
    [sendATCommand] with [phase2_aggressiveModeSwitch] of the AT
    configuration script, whose port is the list of its coming line
    reads and write outcomes. *)

From Stdlib Require Import ZArith List Bool Lia Permutation.
From Stdlib Require String Ascii.
Import ListNotations.
Import String.StringSyntax Ascii.AsciiSyntax.
Delimit Scope string_scope with string.
Delimit Scope char_scope with char.
Local Open Scope Z_scope.

(** ** Protocol constants *)

Definition SOH : Z := 0x01.
Definition EOT : Z := 0x04.
Definition ACK : Z := 0x06.
Definition NAK : Z := 0x15.
Definition CAN : Z := 0x18.
Definition CRC_START : Z := 0x43.
Definition PAD : Z := 0x1A.
Definition DATA_SIZE : nat := 128.
Definition MAX_RETRIES : nat := 10.
Definition EOT_RETRIES : nat := 10.

(** Durations, in milliseconds. *)
Definition HANDSHAKE_TIMEOUT : Z := 10000.
Definition PROBE_TIMEOUT : Z := 1500.
Definition BLOCK_TIMEOUT : Z := 5000.
Definition FLUSH_TIMEOUT : Z := 100.
Definition EOT_PAUSE : Z := 500.

(** ** Machine arithmetic *)

(** [byte] addition and increment wrap at 256; [^b] on a byte flips its
    eight bits. *)
Definition byte_add (a b : Z) : Z := (a + b) mod 256.
Definition byte_not (b : Z) : Z := Z.lxor b 0xFF.

(** [int64] addition wraps into [-2^63, 2^63). *)
Definition wrap64 (z : Z) : Z := (z + 2 ^ 63) mod 2 ^ 64 - 2 ^ 63.
Definition int64_add (a b : Z) : Z := wrap64 (a + b).

(** ** calculateChecksum *)

Definition calculateChecksum (data : list Z) : Z :=
  fold_left byte_add data 0.

(** The mathematical sum of a byte sequence. *)
Definition byte_sum (data : list Z) : Z := fold_right Z.add 0 data.

(** ** The world: clock, serial port, firmware file *)

(** What one [port.Read] of the receiver's side yields: nothing at all,
    some bytes after a delay, or a read error after a delay. *)
Inductive PortRead :=
| Silent
| Arrive (delay : Z) (data : list Z)
| Broken (delay : Z).

Record World := mkWorld {
  clock : Z;                    (* milliseconds elapsed *)
  inbox : list PortRead;        (* outcomes of the coming port reads *)
  sent : list (list Z);         (* every port.Write so far, oldest first *)
  file : list Z;                (* unread rest of the firmware file *)
  fileFault : option nat        (* bytes still readable before a read error *)
}.

Definition tick (d : Z) (w : World) : World :=
  mkWorld (clock w + d) (inbox w) (sent w) (file w) (fileFault w).

Definition portWrite (p : list Z) (w : World) : World :=
  mkWorld (clock w) (inbox w) (sent w ++ [p]) (file w) (fileFault w).

Definition popInbox (w : World) : World :=
  mkWorld (clock w) (tl (inbox w)) (sent w) (file w) (fileFault w).

Definition nextRead (w : World) : PortRead :=
  match inbox w with
  | [] => Silent
  | e :: _ => e
  end.

(** ** readWithTimeout *)

Inductive ReadErr := ErrEOF | ErrPort.

Record ReadResult := mkRead {
  rd_n : nat;
  rd_buf : list Z;
  rd_err : option ReadErr
}.

(** [port.Read buf] stores what arrived at the front of [buf]. *)
Definition fillBuffer (buf data : list Z) : list Z :=
  let got := firstn (length buf) data in
  got ++ skipn (length got) buf.

(** The read races a timer.  When the timer fires first the call
    returns [0, nil, io.EOF] and whatever that read would have delivered
    is dropped. *)
Definition readWithTimeout (buf : list Z) (timeout : Z) (w : World)
  : ReadResult * World :=
  match nextRead w with
  | Silent => (mkRead 0 [] (Some ErrEOF), tick timeout (popInbox w))
  | Arrive d data =>
      if Z.max 0 d <? timeout
      then (mkRead (length (firstn (length buf) data)) (fillBuffer buf data) None,
            tick (Z.max 0 d) (popInbox w))
      else (mkRead 0 [] (Some ErrEOF), tick timeout (popInbox w))
  | Broken d =>
      if Z.max 0 d <? timeout
      then (mkRead 0 buf (Some ErrPort), tick (Z.max 0 d) (popInbox w))
      else (mkRead 0 [] (Some ErrEOF), tick timeout (popInbox w))
  end.

(** The test [err == nil && len(response) > 0] followed by [response[0]]. *)
Definition replyByte (r : ReadResult) : option Z :=
  match rd_err r, rd_buf r with
  | None, b :: _ => Some b
  | _, _ => None
  end.

(** ** flushSerialBuffer *)

(** One pass per pending read; the loop stops at the first timeout,
    error or empty read, so it is bounded by the pending reads. *)
Fixpoint flushLoop (pending : nat) (w : World) : World :=
  let '(r, w1) := readWithTimeout (repeat 0 100) FLUSH_TIMEOUT w in
  match rd_err r, rd_n r, pending with
  | None, S _, S pending' => flushLoop pending' w1
  | _, _, _ => w1
  end.

Definition flushSerialBuffer (w : World) : World :=
  flushLoop (length (inbox w)) w.

(** ** The firmware file: io.ReadFull *)

Inductive FileStatus := FileOk | FileEOF | FileUnexpectedEOF | FileError.

(** [io.ReadFull file buf]: fills [buf] from the file.  A fault set at
    [k] strikes when the byte at offset [k] of the unread rest is asked
    for. *)
Definition readFull (buf : list Z) (w : World)
  : (nat * list Z * FileStatus) * World :=
  let want := length buf in
  let reach := match fileFault w with
               | None => file w
               | Some k => firstn k (file w)
               end in
  let got := firstn want reach in
  let n := length got in
  let faulted := match fileFault w with
                 | None => false
                 | Some k => (k <? want)%nat && (k <? length (file w))%nat
                 end in
  let status := if (n =? want)%nat then FileOk
                else if faulted then FileError
                else if (n =? 0)%nat then FileEOF
                else FileUnexpectedEOF in
  ((n, got ++ skipn n buf, status),
   mkWorld (clock w) (inbox w) (sent w) (skipn n (file w))
           (option_map (fun k => (k - n)%nat) (fileFault w))).

(** [buf[i] = v]; the buffers of this program are never indexed out of
    range, where Go would panic and this leaves the list alone. *)
Fixpoint setByte (i : nat) (v : Z) (buf : list Z) : list Z :=
  match buf, i with
  | [], _ => []
  | _ :: rest, O => v :: rest
  | b :: rest, S i' => b :: setByte i' v rest
  end.

(** [for i := n; i < DATA_SIZE; i++ { dataBuffer[i] = 0x1A }] *)
Definition padBuffer (n : nat) (buf : list Z) : list Z :=
  fold_left (fun acc i => setByte i PAD acc) (seq n (DATA_SIZE - n)) buf.

(** ** Outcomes *)

Inductive TransferError :=
| ErrHandshakeTimeout        (* handshake timeout: did not receive 'C' or NAK *)
| ErrHandshakeFailed         (* handshake failed before data transfer attempt *)
| ErrFileRead                (* file read error *)
| ErrCancelled               (* transfer cancelled by receiver *)
| ErrMaxRetries (blockNum : Z) (* transfer failed: max retries reached *)
| ErrNoFinalAck.             (* transfer successful but no final ACK for EOT *)

(** The pair [(int64, error)] that [xmodemSend] returns. *)
Definition Result : Type := Z * option TransferError.

(** ** Handshake *)

Inductive HandshakeOutcome := Negotiated | TimedOut | WindowClosed.

Definition probe : list Z := [CRC_START; CRC_START; CRC_START; CRC_START].

Definition acceptsProbe (r : ReadResult) : bool :=
  match replyByte r with
  | Some b => (b =? CRC_START) || (b =? NAK)
  | None => false
  end.

(** [for time.Since(startTime) < HANDSHAKE_TIMEOUT { ... }].  [None]
    means the fuel ran out before the loop ended. *)
Fixpoint handshakeLoop (fuel : nat) (startTime : Z) (w : World)
  : option (HandshakeOutcome * World) :=
  match fuel with
  | O => None
  | S fuel' =>
      if clock w - startTime <? HANDSHAKE_TIMEOUT then
        let w1 := portWrite probe w in
        let '(r, w2) := readWithTimeout [0] PROBE_TIMEOUT w1 in
        if acceptsProbe r then Some (Negotiated, w2)
        else if HANDSHAKE_TIMEOUT <=? clock w2 - startTime
             then Some (TimedOut, w2)
             else handshakeLoop fuel' startTime w2
      else Some (WindowClosed, w)
  end.

(** ** Sending one block *)

Inductive BlockOutcome := BlockAcked | BlockCancelled | BlockExhausted.

Definition mkPacket (blockNum : Z) (dataBuffer : list Z) : list Z :=
  [SOH; blockNum; byte_not blockNum] ++ dataBuffer
    ++ [calculateChecksum dataBuffer].

(** [for retry := 0; retry < MAX_RETRIES; retry++ { ... }], counted by
    the attempts that remain. *)
Fixpoint sendBlockLoop (remaining : nat) (blockNum : Z) (dataBuffer : list Z)
  (w : World) : BlockOutcome * World :=
  match remaining with
  | O => (BlockExhausted, w)
  | S remaining' =>
      let w1 := portWrite (mkPacket blockNum dataBuffer) w in
      let '(r, w2) := readWithTimeout [0] BLOCK_TIMEOUT w1 in
      match replyByte r with
      | Some b =>
          if b =? ACK then (BlockAcked, w2)
          else if b =? NAK
               then sendBlockLoop remaining' blockNum dataBuffer
                                  (flushSerialBuffer w2)
          else if b =? CAN then (BlockCancelled, w2)
          else sendBlockLoop remaining' blockNum dataBuffer
                             (flushSerialBuffer w2)
      | None => sendBlockLoop remaining' blockNum dataBuffer w2
      end
  end.

(** ** The data loop *)

Inductive DataOutcome :=
| SourceExhausted (totalBytesSent : Z)
| DataFailed (totalBytesSent : Z) (e : TransferError).

Fixpoint dataLoop (fuel : nat) (totalBytesSent blockNum : Z)
  (dataBuffer : list Z) (w : World) : option (DataOutcome * World) :=
  match fuel with
  | O => None
  | S fuel' =>
      let '((n, buf1, status), w1) := readFull dataBuffer w in
      match status with
      | FileEOF => Some (SourceExhausted totalBytesSent, w1)
      | FileError => Some (DataFailed totalBytesSent ErrFileRead, w1)
      | _ =>
          let buf2 := if (n <? DATA_SIZE)%nat then padBuffer n buf1 else buf1 in
          match sendBlockLoop MAX_RETRIES blockNum buf2 w1 with
          | (BlockAcked, w2) =>
              dataLoop fuel' (int64_add totalBytesSent (Z.of_nat n))
                       (byte_add blockNum 1) buf2 w2
          | (BlockCancelled, w2) =>
              Some (DataFailed totalBytesSent ErrCancelled, w2)
          | (BlockExhausted, w2) =>
              Some (DataFailed totalBytesSent (ErrMaxRetries blockNum), w2)
          end
      end
  end.

(** ** End of transfer *)

(** The reply buffer is allocated once, before the loop, and every read
    lands in it. *)
Fixpoint eotLoop (remaining : nat) (totalBytesSent : Z) (response : list Z)
  (w : World) : Result * World :=
  match remaining with
  | O => ((totalBytesSent, Some ErrNoFinalAck), w)
  | S remaining' =>
      let w1 := portWrite [EOT] w in
      let '(r, w2) := readWithTimeout response BLOCK_TIMEOUT w1 in
      let acked := match replyByte r with
                   | Some b => b =? ACK
                   | None => false
                   end in
      if acked then ((totalBytesSent, None), w2)
      else
        let response' := match rd_err r with
                         | Some ErrEOF => response
                         | _ => rd_buf r
                         end in
        eotLoop remaining' totalBytesSent response' (tick EOT_PAUSE w2)
  end.

(** ** xmodemSend *)

Definition xmodemSend (fuel : nat) (w : World) : option (Result * World) :=
  match handshakeLoop fuel (clock w) w with
  | None => None
  | Some (TimedOut, w1) => Some ((0, Some ErrHandshakeTimeout), w1)
  | Some (WindowClosed, w1) => Some ((0, Some ErrHandshakeFailed), w1)
  | Some (Negotiated, w1) =>
      match dataLoop fuel 0 1 (repeat 0 DATA_SIZE) w1 with
      | None => None
      | Some (DataFailed total e, w2) => Some ((total, Some e), w2)
      | Some (SourceExhausted total, w2) => Some (eotLoop EOT_RETRIES total [0] w2)
      end
  end.

(** Fuel that always suffices: a handshake pass uses up a pending read
    or a full probe timeout, a data pass at least one byte of the file. *)
Definition enoughFuel (w : World) : nat :=
  (length (inbox w) + length (file w) + 9)%nat.

(** ** What main reports *)




(** * The LoRaWAN bridge (main.go) *)

(** ** getGatewayPacket *)

(** The static Semtech header, the gateway EUI and the raw payload,
    appended in this order to an empty packet. *)
Definition getGatewayPacket (rawPayload eui : list Z) : list Z :=
  let header := [0x02; 0x00; 0x00; 0x00] in
  (([] ++ header) ++ eui) ++ rawPayload.

(** * The AT configuration script *)

(** ** The port as the script sees it *)

(** What one [ReadString('\n')] of the buffered reader yields: a line
    with its delimiter, the end of the stream, or any other error, the
    read timeout being the usual one. *)
Inductive LineRead :=
| GotLine (line : String.string)
| LineEOF
| LineTimeout.

Record ATPort := mkATPort {
  at_written : list String.string;  (* every successful port.Write, oldest first *)
  at_writeOk : list bool;           (* whether the coming writes succeed *)
  at_lines : list LineRead;         (* outcomes of the coming line reads *)
  at_slept : Z                      (* milliseconds spent in time.Sleep *)
}.

(** [port.Write]: a write past the end of [at_writeOk] succeeds. *)
Definition atWrite (data : String.string) (p : ATPort) : bool * ATPort :=
  match at_writeOk p with
  | false :: rest =>
      (false, mkATPort (at_written p) rest (at_lines p) (at_slept p))
  | _ =>
      (true, mkATPort (at_written p ++ [data]) (tl (at_writeOk p))
                      (at_lines p) (at_slept p))
  end.

Definition atSleep (d : Z) (p : ATPort) : ATPort :=
  mkATPort (at_written p) (at_writeOk p) (at_lines p) (at_slept p + d).

Definition CRLF : String.string :=
  String.String "013"%char (String.String "010"%char String.EmptyString).

Definition RebootDelay : Z := 3000.

(** [strings.HasSuffix]: the last bytes of [s] are [suffix]. *)
Definition HasSuffix (s suffix : String.string) : bool :=
  (String.length suffix <=? String.length s)%nat
  && String.eqb (String.substring (String.length s - String.length suffix)
                                  (String.length suffix) s) suffix.

Inductive ATError :=
| ATWriteFailed (command : String.string)  (* failed to write command *)
| ATUnexpectedEOF.                         (* read terminated unexpectedly (EOF) *)

Inductive Phase2Error :=
| Step1Failed (e : ATError)          (* step 1 (AT+MODE=0) failed *)
| Step2Failed (e : ATError)          (* step 2 (AT+SAVE) failed *)
| Step3Failed (e : ATError)          (* step 3 (ATZ) failed *)
| VerificationFailed (e : ATError).  (* verification check (AT+MODE?) failed *)

Section ATScript.

(** [strings.TrimSpace] is the library's; the script only feeds its
    result to [HasSuffix]. *)
Variable TrimSpace : String.string -> String.string.

Definition isStatusLine (line : String.string) : bool :=
  let trimmedLine := TrimSpace line in
  HasSuffix trimmedLine "OK"%string || HasSuffix trimmedLine "ERROR"%string.

(** ** sendATCommand *)

(** The read loop, one pass per pending line read; a reader with
    nothing pending times out. *)
Fixpoint readResponse (lines : list LineRead) (response : String.string)
  (hasResponse : bool)
  : (String.string * option ATError) * list LineRead :=
  match lines with
  | [] => ((response, None), [])
  | LineEOF :: rest => ((response, Some ATUnexpectedEOF), rest)
  | LineTimeout :: rest =>
      if negb hasResponse then ((response, None), rest)
      else ((response, None), rest)
  | GotLine line :: rest =>
      let response' := String.append response line in
      if isStatusLine line then ((response', None), rest)
      else readResponse rest response' true
  end.

Definition sendATCommand (port : ATPort) (command : String.string)
  : (String.string * option ATError) * ATPort :=
  let fullCommand := String.append command CRLF in
  match atWrite fullCommand port with
  | (false, p1) => ((String.EmptyString, Some (ATWriteFailed command)), p1)
  | (true, p1) =>
      let '(res, rest) :=
        readResponse (at_lines p1) String.EmptyString false in
      (res, mkATPort (at_written p1) (at_writeOk p1) rest (at_slept p1))
  end.

(** ** phase2_aggressiveModeSwitch *)

(** The helper closure: the response is logged and dropped, only the
    error is handed back. *)
Definition sendAndVerify (cmd : String.string) (port : ATPort)
  : option ATError * ATPort :=
  let '((resp, err), p) := sendATCommand port cmd in (err, p).

Definition phase2_aggressiveModeSwitch (port : ATPort)
  : option Phase2Error * ATPort :=
  match sendAndVerify "AT+MODE=0"%string port with
  | (Some e, p1) => (Some (Step1Failed e), p1)
  | (None, p1) =>
      match sendAndVerify "AT+SAVE"%string p1 with
      | (Some e, p2) => (Some (Step2Failed e), p2)
      | (None, p2) =>
          match sendAndVerify "ATZ"%string p2 with
          | (Some e, p3) => (Some (Step3Failed e), p3)
          | (None, p3) =>
              match sendAndVerify "AT+MODE?"%string (atSleep RebootDelay p3) with
              | (Some e, p4) => (Some (VerificationFailed e), p4)
              | (None, p4) => (None, p4)
              end
          end
      end
  end.

End ATScript.

(** * Vocabulary of the properties *)

(** How long a read with the given timeout takes on a pending read. *)
Definition readCost (timeout : Z) (e : PortRead) : Z :=
  match e with
  | Silent => timeout
  | Arrive d _ | Broken d => if Z.max 0 d <? timeout then Z.max 0 d else timeout
  end.

(** Two worlds that differ only in clock and pending reads. *)
Definition sameOutput (w w' : World) : Prop :=
  sent w' = sent w /\ file w' = file w /\ fileFault w' = fileFault w
  /\ (length (inbox w') <= length (inbox w))%nat /\ clock w <= clock w'.

(** The write of one attempt followed by the wait for its reply. *)
Definition blockReply (blockNum : Z) (dataBuffer : list Z) (w : World)
  : ReadResult * World :=
  readWithTimeout [0] BLOCK_TIMEOUT (portWrite (mkPacket blockNum dataBuffer) w).

(** What a stretch of the program did to the world: it wrote [out],
    left the file alone, and only used up pending reads and time. *)
Definition wrote (out : list (list Z)) (w w' : World) : Prop :=
  sent w' = sent w ++ out /\ file w' = file w /\ fileFault w' = fileFault w
  /\ (length (inbox w') <= length (inbox w))%nat /\ clock w <= clock w'.

(** A chunk as it goes on the wire. *)
Definition padded (chunk : list Z) : list Z :=
  chunk ++ repeat PAD (DATA_SIZE - length chunk).

(** The file once a chunk has been taken from it. *)
Definition afterChunk (w : World) : World :=
  mkWorld (clock w) (inbox w) (sent w) (skipn DATA_SIZE (file w)) None.

Definition int64 (z : Z) : Prop := - 2 ^ 63 <= z < 2 ^ 63.

(** The sequence number [k] acknowledged blocks after [bn]. *)
Fixpoint seqAfter (bn : Z) (k : nat) : Z :=
  match k with
  | O => bn
  | S k' => seqAfter (byte_add bn 1) k'
  end.

(** The packets of a data phase that starts at sequence number [bn] on
    the unread file [rest] and makes [m] attempts at each successive
    block, for the counts [m] listed in [ms]. *)
Fixpoint blockTrace (bn : Z) (rest : list Z) (ms : list nat)
  : list (list Z) :=
  match ms with
  | [] => []
  | m :: ms' =>
      repeat (mkPacket bn (padded (firstn DATA_SIZE rest))) m
        ++ blockTrace (byte_add bn 1) (skipn DATA_SIZE rest) ms'
  end.

Definition attemptsOk (ms : list nat) : Prop :=
  Forall (fun m => (1 <= m <= MAX_RETRIES)%nat) ms.

(** How a data phase can end, in terms of the file it started on, the
    counter it started with and the attempts it made. *)
Definition dataEnding (total bn : Z) (src : list Z) (ms : list nat)
  (out : DataOutcome) : Prop :=
  match out with
  | SourceExhausted t =>
      t = wrap64 (total + Z.of_nat (length src))
      /\ (length src <= DATA_SIZE * length ms < length src + DATA_SIZE)%nat
  | DataFailed t e =>
      exists (acked : list nat) (m : nat),
        ms = acked ++ [m]
        /\ t = wrap64 (total + Z.of_nat (DATA_SIZE * length acked))
        /\ (DATA_SIZE * length acked < length src)%nat
        /\ (e = ErrCancelled
            \/ (e = ErrMaxRetries (seqAfter bn (length acked))
                /\ m = MAX_RETRIES))
  end.

(** One probe burst followed by the wait for its reply. *)
Definition probeReply (w : World) : ReadResult * World :=
  readWithTimeout [0] PROBE_TIMEOUT (portWrite probe w).

(** A pending read that a probe takes as the go-ahead: a byte 'C' or
    NAK that arrives before the probe's own wait is over. *)
Definition accepting (e : PortRead) : bool :=
  match e with
  | Arrive d (b :: _) =>
      (Z.max 0 d <? PROBE_TIMEOUT) && ((b =? CRC_START) || (b =? NAK))
  | _ => false
  end.

(** Whether some probe sent while less than [HANDSHAKE_TIMEOUT] has
    elapsed gets an accepting reply, given the time elapsed so far and
    the pending reads, one per probe. *)
Fixpoint answeredWithin (elapsed : Z) (reads : list PortRead) : bool :=
  match reads with
  | [] => false
  | e :: rest =>
      (elapsed <? HANDSHAKE_TIMEOUT)
      && (accepting e
          || answeredWithin (elapsed + readCost PROBE_TIMEOUT e) rest)
  end.

(** The time the probes answered by [reads] take together. *)
Definition windowUsed (reads : list PortRead) : Z :=
  fold_right (fun e acc => readCost PROBE_TIMEOUT e + acc) 0 reads.

(** A pending read that acknowledges an EOT: the byte ACK, in time. *)
Definition acksEOT (e : PortRead) : bool :=
  match e with
  | Arrive d (b :: _) => (Z.max 0 d <? BLOCK_TIMEOUT) && (b =? ACK)
  | _ => false
  end.

(** The world after one EOT and the wait for its reply. *)
Definition afterEOT (w : World) : World :=
  mkWorld (clock w + readCost BLOCK_TIMEOUT (nextRead w))
          (tl (inbox w)) (sent w ++ [[EOT]]) (file w) (fileFault w).

(** A data packet: block-start marker, sequence number, its one's
    complement, 128 bytes of payload and their checksum. *)
Definition dataPacket (p : list Z) : Prop :=
  exists (bn : Z) (payload : list Z),
    0 <= bn < 256
    /\ length payload = DATA_SIZE
    /\ p = [SOH; bn; 255 - bn] ++ payload ++ [calculateChecksum payload].

Inductive Run (w : World) (r : Result) (w' : World) : Prop :=
| RunNoHandshake (m : nat)
    (Hres : r = (0, Some ErrHandshakeTimeout) \/ r = (0, Some ErrHandshakeFailed))
    (Hsent : sent w' = sent w ++ repeat probe m)
| RunDataFailed (m : nat) (ms : list nat) (t : Z) (e : TransferError)
    (Hres : r = (t, Some e))
    (Hsent : sent w' = sent w ++ repeat probe m ++ blockTrace 1 (file w) ms)
    (Hok : attemptsOk ms)
    (Hend : dataEnding 0 1 (file w) ms (DataFailed t e))
| RunDataSent (m : nat) (ms : list nat) (t : Z) (w2 : World)
    (Hsent : sent w2 = sent w ++ repeat probe m ++ blockTrace 1 (file w) ms)
    (Hok : attemptsOk ms)
    (Hend : dataEnding 0 1 (file w) ms (SourceExhausted t))
    (Hinbox : (length (inbox w2) <= length (inbox w))%nat)
    (Heot : eotLoop EOT_RETRIES t [0] w2 = (r, w')).



(** A pending read that keeps the flush going: some bytes, before the
    100 ms are over. *)
Definition keepsFlushing (e : PortRead) : bool :=
  match e with
  | Arrive d (_ :: _) => Z.max 0 d <? FLUSH_TIMEOUT
  | _ => false
  end.

(** The time the flush spends on the given reads. *)
Definition flushCost (reads : list PortRead) : Z :=
  fold_right (fun e acc => readCost FLUSH_TIMEOUT e + acc) 0 reads.

(** The lines of a response, one after the other. *)
Definition joinLines (lines : list String.string) : String.string :=
  fold_right String.append String.EmptyString lines.

(** The four commands of the mode switch, as they go to the port. *)
Definition phase2Commands : list String.string :=
  [String.append "AT+MODE=0"%string CRLF; String.append "AT+SAVE"%string CRLF;
   String.append "ATZ"%string CRLF; String.append "AT+MODE?"%string CRLF].

(** * Properties *)

(** ** Checksum *)

Lemma checksum_from (data : list Z) (a : Z) :
  fold_left byte_add data (a mod 256) = (a + byte_sum data) mod 256.
Proof.
  revert a; induction data as [|b data IH]; intros a; simpl.
  - now rewrite Z.add_0_r.
  - change (byte_add (a mod 256) b) with ((a mod 256 + b) mod 256).
    rewrite IH.
    replace (a mod 256 + b + byte_sum data)
      with (a mod 256 + (b + byte_sum data)) by lia.
    now rewrite Zplus_mod_idemp_l.
Qed.

Lemma checksum_is_sum (data : list Z) :
  calculateChecksum data = byte_sum data mod 256.
Proof.
  unfold calculateChecksum.
  change 0 with (0 mod 256) at 1. now rewrite checksum_from.
Qed.

Lemma byte_sum_app (a b : list Z) :
  byte_sum (a ++ b) = byte_sum a + byte_sum b.
Proof.
  unfold byte_sum; induction a as [|x a IH]; simpl; lia.
Qed.

Lemma byte_sum_repeat (v : Z) (n : nat) :
  byte_sum (repeat v n) = Z.of_nat n * v.
Proof.
  unfold byte_sum; induction n as [|n IH].
  - reflexivity.
  - cbn [repeat fold_right]. rewrite IH. lia.
Qed.

(** ** Reads and the flush leave the writes and the file alone *)

Lemma readWithTimeout_world (buf : list Z) (timeout : Z) (w : World) :
  snd (readWithTimeout buf timeout w)
  = tick (readCost timeout (nextRead w)) (popInbox w).
Proof.
  unfold readWithTimeout, readCost.
  destruct (nextRead w) as [|d data|d]; try reflexivity;
    destruct (Z.max 0 d <? timeout); reflexivity.
Qed.

Lemma readCost_bounds (timeout : Z) (e : PortRead) :
  0 <= timeout -> 0 <= readCost timeout e <= timeout.
Proof.
  intros Ht; destruct e as [|d data|d]; simpl; try lia;
    destruct (Z.ltb_spec (Z.max 0 d) timeout); lia.
Qed.

Lemma sameOutput_refl (w : World) : sameOutput w w.
Proof. unfold sameOutput; repeat split; lia. Qed.

Lemma sameOutput_trans (a b c : World) :
  sameOutput a b -> sameOutput b c -> sameOutput a c.
Proof.
  unfold sameOutput; intros (?&?&?&?&?) (?&?&?&?&?).
  repeat split; try congruence; lia.
Qed.

Lemma readWithTimeout_sameOutput (buf : list Z) (timeout : Z) (w : World) :
  0 <= timeout -> sameOutput w (snd (readWithTimeout buf timeout w)).
Proof.
  intros Ht. rewrite readWithTimeout_world.
  pose proof (readCost_bounds timeout (nextRead w) Ht).
  unfold sameOutput; simpl. repeat split; try lia.
  destruct (inbox w); simpl; lia.
Qed.

Lemma flushLoop_unfold (pending : nat) (w : World) :
  flushLoop pending w
  = let '(r, w1) := readWithTimeout (repeat 0 100) FLUSH_TIMEOUT w in
    match rd_err r, rd_n r, pending with
    | None, S _, S pending' => flushLoop pending' w1
    | _, _, _ => w1
    end.
Proof. destruct pending; reflexivity. Qed.

Lemma flushLoop_sameOutput (pending : nat) (w : World) :
  sameOutput w (flushLoop pending w).
Proof.
  revert w; induction pending as [|p IH]; intros w;
    rewrite flushLoop_unfold;
    pose proof (readWithTimeout_sameOutput (repeat 0 100) FLUSH_TIMEOUT w
                  ltac:(unfold FLUSH_TIMEOUT; lia)) as Hr;
    destruct (readWithTimeout (repeat 0 100) FLUSH_TIMEOUT w) as [r w1];
    cbn [snd] in Hr.
  - destruct (rd_err r); [|destruct (rd_n r)]; exact Hr.
  - destruct (rd_err r); [exact Hr|]. destruct (rd_n r); [exact Hr|].
    eapply sameOutput_trans; [exact Hr|apply IH].
Qed.

Lemma flushSerialBuffer_sameOutput (w : World) :
  sameOutput w (flushSerialBuffer w).
Proof. apply flushLoop_sameOutput. Qed.

(** The flush always ends on a read that timed out, failed or came back
    empty: its bound of one pass per pending read is never what stops it. *)
Lemma flushLoop_ends (pending : nat) (w : World) :
  (length (inbox w) <= pending)%nat ->
  exists w0 : World,
    flushLoop pending w = snd (readWithTimeout (repeat 0 100) FLUSH_TIMEOUT w0)
    /\ (rd_err (fst (readWithTimeout (repeat 0 100) FLUSH_TIMEOUT w0)) <> None
        \/ rd_n (fst (readWithTimeout (repeat 0 100) FLUSH_TIMEOUT w0)) = O).
Proof.
  revert w; induction pending as [|p IH]; intros w Hlen;
    rewrite flushLoop_unfold.
  - exists w.
    assert (Hn : nextRead w = Silent).
    { unfold nextRead. destruct (inbox w); [reflexivity|simpl in Hlen; lia]. }
    unfold readWithTimeout. rewrite Hn. cbn. split; [reflexivity|].
    left; discriminate.
  - pose proof (readWithTimeout_world (repeat 0 100) FLUSH_TIMEOUT w) as Hw.
    destruct (readWithTimeout (repeat 0 100) FLUSH_TIMEOUT w) as [r w1] eqn:E.
    cbn [snd] in Hw.
    destruct (rd_err r) eqn:Ee.
    + exists w. rewrite E. cbn [fst snd]. split; [reflexivity|].
      left; congruence.
    + destruct (rd_n r) eqn:En.
      * exists w. rewrite E. cbn [fst snd]. split; [reflexivity|]. now right.
      * apply IH. rewrite Hw. cbn. destruct (inbox w); cbn in *; lia.
Qed.

(** ** One block: what the retry loop writes *)

Lemma sendBlockLoop_S (k : nat) (bn : Z) (buf : list Z) (w : World) :
  sendBlockLoop (S k) bn buf w
  = match replyByte (fst (blockReply bn buf w)) with
    | Some b =>
        if b =? ACK then (BlockAcked, snd (blockReply bn buf w))
        else if b =? NAK
             then sendBlockLoop k bn buf
                    (flushSerialBuffer (snd (blockReply bn buf w)))
        else if b =? CAN then (BlockCancelled, snd (blockReply bn buf w))
        else sendBlockLoop k bn buf
               (flushSerialBuffer (snd (blockReply bn buf w)))
    | None => sendBlockLoop k bn buf (snd (blockReply bn buf w))
    end.
Proof.
  cbn [sendBlockLoop]. fold (blockReply bn buf w).
  now destruct (blockReply bn buf w).
Qed.

Lemma blockReply_sent (bn : Z) (buf : list Z) (w : World) :
  sent (snd (blockReply bn buf w)) = sent w ++ [mkPacket bn buf]
  /\ file (snd (blockReply bn buf w)) = file w
  /\ fileFault (snd (blockReply bn buf w)) = fileFault w
  /\ (length (inbox (snd (blockReply bn buf w))) <= length (inbox w))%nat
  /\ clock w <= clock (snd (blockReply bn buf w)).
Proof.
  unfold blockReply.
  destruct (readWithTimeout_sameOutput [0] BLOCK_TIMEOUT
              (portWrite (mkPacket bn buf) w)
              ltac:(unfold BLOCK_TIMEOUT; lia)) as (Hs & Hf & Hff & Hi & Hc).
  cbn [portWrite sent file fileFault inbox clock] in *. auto.
Qed.

Lemma wrote_sameOutput (out : list (list Z)) (a b c : World) :
  wrote out a b -> sameOutput b c -> wrote out a c.
Proof.
  unfold wrote, sameOutput; intros (?&?&?&?&?) (?&?&?&?&?).
  repeat split; try congruence; lia.
Qed.

Lemma wrote_app (o1 o2 : list (list Z)) (a b c : World) :
  wrote o1 a b -> wrote o2 b c -> wrote (o1 ++ o2) a c.
Proof.
  unfold wrote; intros (?&?&?&?&?) (Hs&?&?&?&?).
  repeat split; try congruence; try lia.
  rewrite Hs, app_assoc. congruence.
Qed.

Lemma repeat_snoc {A : Type} (a : A) (n : nat) :
  [a] ++ repeat a n = repeat a (S n).
Proof. reflexivity. Qed.

(** Every attempt of a block writes the same packet; the loop makes at
    most [k] attempts, all [k] of them when it gives up, and at least
    one when it ends on a reply. *)
Lemma sendBlockLoop_wrote (k : nat) (bn : Z) (buf : list Z) :
  forall (w : World) (out : BlockOutcome) (w' : World),
    sendBlockLoop k bn buf w = (out, w') ->
    exists m : nat,
      wrote (repeat (mkPacket bn buf) m) w w'
      /\ (m <= k)%nat
      /\ (out = BlockExhausted -> m = k)
      /\ (out <> BlockExhausted -> (1 <= m)%nat).
Proof.
  induction k as [|k IH]; intros w out w' H.
  - cbn in H. inversion H; subst. exists O.
    split; [|split; [|split]]; try lia; try congruence.
    unfold wrote; cbn. rewrite app_nil_r. repeat split; lia.
  - rewrite sendBlockLoop_S in H.
    pose proof (blockReply_sent bn buf w) as Hb.
    set (w2 := snd (blockReply bn buf w)) in *.
    assert (Hone : wrote [mkPacket bn buf] w w2) by exact Hb.
    assert (Hretry : forall w3, sameOutput w2 w3 ->
              sendBlockLoop k bn buf w3 = (out, w') ->
              exists m : nat,
                wrote (repeat (mkPacket bn buf) m) w w'
                /\ (m <= S k)%nat
                /\ (out = BlockExhausted -> m = S k)
                /\ (out <> BlockExhausted -> (1 <= m)%nat)).
    { intros w3 H3 Hrun. destruct (IH _ _ _ Hrun) as (m & Hm & Hle & He & Hn).
      exists (S m). rewrite <- repeat_snoc.
      split; [|split; [|split]]; try lia.
      - eapply wrote_app; [eapply wrote_sameOutput; eassumption|exact Hm].
      - intros E; rewrite (He E); reflexivity. }
    assert (Hstop : (out, w') = (out, w2) -> out <> BlockExhausted ->
              exists m : nat,
                wrote (repeat (mkPacket bn buf) m) w w'
                /\ (m <= S k)%nat
                /\ (out = BlockExhausted -> m = S k)
                /\ (out <> BlockExhausted -> (1 <= m)%nat)).
    { intros E Hne. inversion E; subst w'. exists 1%nat.
      split; [exact Hone|]. split; [lia|]. split; [congruence|lia]. }
    destruct (replyByte (fst (blockReply bn buf w))) as [b|].
    + destruct (b =? ACK).
      { inversion H; subst. apply Hstop; [reflexivity|discriminate]. }
      destruct (b =? NAK).
      { eapply Hretry; [apply flushSerialBuffer_sameOutput|exact H]. }
      destruct (b =? CAN).
      { inversion H; subst. apply Hstop; [reflexivity|discriminate]. }
      eapply Hretry; [apply flushSerialBuffer_sameOutput|exact H].
    + eapply Hretry; [apply sameOutput_refl|exact H].
Qed.

(** ** Reading and padding a chunk *)

Lemma setByte_length (i : nat) (v : Z) (buf : list Z) :
  length (setByte i v buf) = length buf.
Proof.
  revert i; induction buf as [|b buf IH]; intros [|i]; cbn; auto.
Qed.

Lemma firstn_S_setByte (i : nat) (v : Z) (buf : list Z) :
  (i < length buf)%nat ->
  firstn (S i) (setByte i v buf) = firstn i buf ++ [v].
Proof.
  revert i; induction buf as [|b buf IH]; intros i Hi; cbn in Hi; [lia|].
  destruct i as [|i]; [reflexivity|].
  cbn [setByte]. rewrite !firstn_cons. rewrite IH by lia. reflexivity.
Qed.

Lemma padLoop_spec (count n : nat) (buf : list Z) :
  (n + count = length buf)%nat ->
  fold_left (fun acc i => setByte i PAD acc) (seq n count) buf
  = firstn n buf ++ repeat PAD count.
Proof.
  revert n buf; induction count as [|c IH]; intros n buf Hlen.
  - cbn. rewrite app_nil_r. symmetry. apply firstn_all2. lia.
  - cbn [seq fold_left]. rewrite IH by (rewrite setByte_length; lia).
    rewrite firstn_S_setByte by lia. now rewrite <- app_assoc.
Qed.

Lemma padBuffer_spec (n : nat) (buf : list Z) :
  length buf = DATA_SIZE -> (n <= DATA_SIZE)%nat ->
  padBuffer n buf = firstn n buf ++ repeat PAD (DATA_SIZE - n).
Proof.
  intros Hlen Hn. unfold padBuffer. apply padLoop_spec. lia.
Qed.

Lemma padBuffer_length (n : nat) (buf : list Z) :
  length (padBuffer n buf) = length buf.
Proof.
  unfold padBuffer. generalize (seq n (DATA_SIZE - n)) as idx.
  intros idx; revert buf; induction idx as [|i idx IH]; intros buf; cbn.
  - reflexivity.
  - now rewrite IH, setByte_length.
Qed.

Lemma padded_length (chunk : list Z) :
  (length chunk <= DATA_SIZE)%nat -> length (padded chunk) = DATA_SIZE.
Proof.
  intros H. unfold padded. rewrite length_app, repeat_length. lia.
Qed.

Lemma readFull_n_le (buf : list Z) (w : World) :
  (fst (fst (fst (readFull buf w))) <= length buf)%nat.
Proof. cbn. rewrite length_firstn. lia. Qed.

Lemma readFull_length (buf : list Z) (w : World) :
  length (snd (fst (fst (readFull buf w)))) = length buf.
Proof.
  cbn. rewrite length_app, length_skipn, !length_firstn. lia.
Qed.

Lemma readFull_sent (buf : list Z) (w : World) :
  sent (snd (readFull buf w)) = sent w
  /\ inbox (snd (readFull buf w)) = inbox w
  /\ clock (snd (readFull buf w)) = clock w.
Proof. now cbn. Qed.

(** With a sound file, a read gives the next [DATA_SIZE] bytes or what
    is left of the file, and the buffer the block loop then gets is
    that chunk padded. *)
Lemma readFull_sound (buf : list Z) (w : World) :
  fileFault w = None -> length buf = DATA_SIZE ->
  let chunk := firstn DATA_SIZE (file w) in
  let n := length chunk in
  readFull buf w
  = ((n, chunk ++ skipn n buf,
      if (n =? DATA_SIZE)%nat then FileOk
      else if (n =? 0)%nat then FileEOF else FileUnexpectedEOF),
     mkWorld (clock w) (inbox w) (sent w) (skipn DATA_SIZE (file w)) None)
  /\ (if (n <? DATA_SIZE)%nat then padBuffer n (chunk ++ skipn n buf)
      else chunk ++ skipn n buf) = padded chunk.
Proof.
  intros Hf Hlen chunk n. unfold readFull. rewrite Hf, Hlen. cbn [option_map].
  fold chunk. fold n.
  assert (Hn : n = Nat.min DATA_SIZE (length (file w)))
    by (unfold n, chunk; apply length_firstn).
  split.
  - f_equal. f_equal.
    destruct (Nat.le_gt_cases DATA_SIZE (length (file w))).
    + now replace n with DATA_SIZE by lia.
    + replace n with (length (file w)) by lia.
      rewrite !skipn_all2 by lia. reflexivity.
  - destruct (Nat.ltb_spec n DATA_SIZE) as [Hlt|Hge].
    + rewrite padBuffer_spec.
      * rewrite firstn_app, firstn_all2 by (fold n; lia).
        replace (n - length chunk)%nat with O by (fold n; lia).
        cbn [firstn]. now rewrite app_nil_r.
      * rewrite length_app, length_skipn. fold n. lia.
      * lia.
    + unfold padded. fold n. rewrite skipn_all2 by lia.
      replace (DATA_SIZE - n)%nat with O by lia. reflexivity.
Qed.

(** ** One pass of the data loop *)

Lemma dataLoop_eof (fuel : nat) (total bn : Z) (buf : list Z) (w : World) :
  fileFault w = None -> length buf = DATA_SIZE -> file w = [] ->
  dataLoop (S fuel) total bn buf w = Some (SourceExhausted total, w).
Proof.
  intros Hf Hlen He. cbn [dataLoop].
  destruct (readFull_sound buf w Hf Hlen) as [-> _].
  rewrite He. cbn.
  destruct w as [c i s f ff]; cbn in *; subst; reflexivity.
Qed.

Lemma dataLoop_pass (fuel : nat) (total bn : Z) (buf : list Z) (w : World) :
  fileFault w = None -> length buf = DATA_SIZE -> file w <> [] ->
  dataLoop (S fuel) total bn buf w
  = match sendBlockLoop MAX_RETRIES bn (padded (firstn DATA_SIZE (file w)))
            (afterChunk w) with
    | (BlockAcked, w2) =>
        dataLoop fuel
          (int64_add total (Z.of_nat (length (firstn DATA_SIZE (file w)))))
          (byte_add bn 1) (padded (firstn DATA_SIZE (file w))) w2
    | (BlockCancelled, w2) => Some (DataFailed total ErrCancelled, w2)
    | (BlockExhausted, w2) => Some (DataFailed total (ErrMaxRetries bn), w2)
    end.
Proof.
  intros Hf Hlen Hne. cbn [dataLoop].
  destruct (readFull_sound buf w Hf Hlen) as [-> Hpad].
  cbv zeta in Hpad. rewrite Hpad. fold (afterChunk w).
  set (n := length (firstn DATA_SIZE (file w))).
  assert (Hn : n <> O).
  { unfold n. rewrite length_firstn. destruct (file w); [congruence|].
    cbn [length]. unfold DATA_SIZE. lia. }
  destruct (Nat.eqb_spec n DATA_SIZE); [reflexivity|].
  destruct (Nat.eqb_spec n 0); [contradiction|reflexivity].
Qed.

(** ** The whole data phase *)

Lemma wrap64_int64 (z : Z) : int64 (wrap64 z).
Proof.
  unfold int64, wrap64.
  pose proof (Z.mod_pos_bound (z + 2 ^ 63) (2 ^ 64) ltac:(lia)). lia.
Qed.

Lemma wrap64_id (z : Z) : int64 z -> wrap64 z = z.
Proof.
  unfold int64, wrap64; intros H. rewrite Z.mod_small; lia.
Qed.

Lemma wrap64_add_l (a b : Z) : wrap64 (wrap64 a + b) = wrap64 (a + b).
Proof.
  unfold wrap64. f_equal.
  replace ((a + 2 ^ 63) mod 2 ^ 64 - 2 ^ 63 + b + 2 ^ 63)
    with ((a + 2 ^ 63) mod 2 ^ 64 + b) by lia.
  rewrite Zplus_mod_idemp_l. f_equal; lia.
Qed.

Lemma dataLoop_run (fuel : nat) :
  forall (total bn : Z) (buf : list Z) (w : World)
         (out : DataOutcome) (w' : World),
    fileFault w = None -> length buf = DATA_SIZE -> int64 total ->
    dataLoop fuel total bn buf w = Some (out, w') ->
    exists ms : list nat,
      sent w' = sent w ++ blockTrace bn (file w) ms
      /\ attemptsOk ms
      /\ dataEnding total bn (file w) ms out
      /\ (length (inbox w') <= length (inbox w))%nat.
Proof.
  induction fuel as [|fuel IH]; intros total bn buf w out w' Hf Hlen Ht Hrun;
    [discriminate|].
  destruct (file w) as [|x rest] eqn:Hfile.
  - rewrite dataLoop_eof in Hrun by assumption.
    inversion Hrun; subst. exists []. cbn.
    rewrite app_nil_r, Z.add_0_r, wrap64_id by assumption.
    repeat split; try constructor; unfold DATA_SIZE; lia.
  - rewrite dataLoop_pass in Hrun by (try assumption; congruence).
    rewrite Hfile in Hrun.
    set (chunk := firstn DATA_SIZE (x :: rest)) in *.
    destruct (sendBlockLoop MAX_RETRIES bn (padded chunk) (afterChunk w))
      as [bo w2] eqn:Hblock.
    destruct (sendBlockLoop_wrote _ _ _ _ _ _ Hblock)
      as (m & (Hs & Hfl & Hff & Hin & _) & Hle & Hex & Hne).
    cbn [afterChunk sent file fileFault inbox] in Hs, Hfl, Hff, Hin.
    rewrite Hfile in Hfl.
    destruct bo.
    + assert (Hchunk : (length chunk <= DATA_SIZE)%nat)
        by (unfold chunk; rewrite length_firstn; lia).
      destruct (IH _ _ _ _ _ _ Hff (padded_length _ Hchunk)
                  (wrap64_int64 _) Hrun)
        as (ms & Hs' & Hok & Hend & Hin').
      exists (m :: ms). rewrite Hs', Hs, Hfl. cbn [blockTrace].
      fold chunk. rewrite <- app_assoc.
      split; [reflexivity|]. split.
      { constructor; [|exact Hok]. split; [apply Hne; discriminate|lia]. }
      split; [|lia].
      rewrite Hfl in Hend.
      assert (Hsk : length (x :: rest)
                    = (length chunk + length (skipn DATA_SIZE (x :: rest)))%nat).
      { unfold chunk. rewrite length_firstn, length_skipn. lia. }
      assert (Hck : length chunk = Nat.min DATA_SIZE (length (x :: rest)))
        by (unfold chunk; apply length_firstn).
      destruct out as [t|t e]; cbn [dataEnding] in *.
      * destruct Hend as [-> Hcnt]. unfold int64_add.
        rewrite wrap64_add_l. split; [f_equal; lia|].
        cbn [length] in *. unfold DATA_SIZE in *. lia.
      * destruct Hend as (acked & m' & -> & -> & Hlt & He).
        exists (m :: acked), m'. unfold int64_add. rewrite wrap64_add_l.
        split; [reflexivity|]. cbn [length seqAfter] in *.
        split; [f_equal; unfold DATA_SIZE in *; lia|].
        split; [unfold DATA_SIZE in *; lia|exact He].
    + inversion Hrun; subst. exists [m]. rewrite Hs. cbn [blockTrace].
      fold chunk. rewrite app_nil_r.
      split; [reflexivity|]. split.
      { constructor; [|constructor]. split; [apply Hne; discriminate|lia]. }
      split; [|lia]. exists [], m. cbn.
      rewrite Z.add_0_r, wrap64_id by assumption.
      repeat split; try lia. now left.
    + inversion Hrun; subst. exists [m]. rewrite Hs. cbn [blockTrace].
      fold chunk. rewrite app_nil_r.
      split; [reflexivity|]. split.
      { constructor; [|constructor]. rewrite (Hex eq_refl).
        unfold MAX_RETRIES; lia. }
      split; [|lia]. exists [], m. cbn.
      rewrite Z.add_0_r, wrap64_id by assumption.
      repeat split; try lia. right. split; [reflexivity|now apply Hex].
Qed.

(** ** The loops end: enough fuel always gives a result *)

Lemma readFull_progress (buf : list Z) (w : World) :
  length buf = DATA_SIZE ->
  forall n buf1 st w1,
    readFull buf w = ((n, buf1, st), w1) ->
    length buf1 = DATA_SIZE
    /\ (n <= DATA_SIZE)%nat
    /\ sent w1 = sent w /\ inbox w1 = inbox w /\ clock w1 = clock w
    /\ (st = FileOk \/ st = FileUnexpectedEOF ->
        (length (file w1) < length (file w))%nat).
Proof.
  intros Hlen n buf1 st w1 E.
  pose proof (readFull_length buf w) as H1.
  pose proof (readFull_n_le buf w) as H2.
  pose proof (readFull_sent buf w) as H3.
  rewrite E in H1, H2, H3. cbn [fst snd] in H1, H2, H3.
  rewrite Hlen in H1, H2.
  split; [assumption|]. split; [assumption|].
  destruct H3 as (? & ? & ?). repeat (split; [assumption|]).
  unfold readFull in E. injection E as Hn Hb Hs Hw. subst w1.
  cbn [file]. rewrite length_skipn.
  set (got := firstn (length buf) _) in *.
  assert (Hgot : (length got <= length (file w))%nat).
  { unfold got. destruct (fileFault w); rewrite !length_firstn; lia. }
  rewrite Hlen in Hs. rewrite <- Hs, Hn.
  destruct (Nat.eqb_spec n DATA_SIZE) as [E1|E1].
  - intros _. unfold DATA_SIZE in E1. lia.
  - destruct (match fileFault w with
              | Some k => (k <? DATA_SIZE)%nat && (k <? length (file w))%nat
              | None => false
              end); [intros [?|?]; congruence|].
    destruct (Nat.eqb_spec n 0); [intros [?|?]; congruence|].
    intros _. lia.
Qed.


(** ** The handshake *)

Lemma handshakeLoop_S (fuel : nat) (start : Z) (w : World) :
  handshakeLoop (S fuel) start w
  = if clock w - start <? HANDSHAKE_TIMEOUT then
      if acceptsProbe (fst (probeReply w))
      then Some (Negotiated, snd (probeReply w))
      else if HANDSHAKE_TIMEOUT <=? clock (snd (probeReply w)) - start
           then Some (TimedOut, snd (probeReply w))
           else handshakeLoop fuel start (snd (probeReply w))
    else Some (WindowClosed, w).
Proof.
  cbn [handshakeLoop]. fold (probeReply w). now destruct (probeReply w).
Qed.

Lemma acceptsProbe_accepting (w : World) :
  acceptsProbe (fst (probeReply w)) = accepting (nextRead w).
Proof.
  unfold probeReply, readWithTimeout, acceptsProbe, replyByte, accepting.
  change (nextRead (portWrite probe w)) with (nextRead w).
  destruct (nextRead w) as [|d [|b data]|d]; try reflexivity;
    destruct (Z.max 0 d <? PROBE_TIMEOUT); reflexivity.
Qed.

Lemma probeReply_world (w : World) :
  snd (probeReply w)
  = mkWorld (clock w + readCost PROBE_TIMEOUT (nextRead w))
            (tl (inbox w)) (sent w ++ [probe]) (file w) (fileFault w).
Proof. unfold probeReply. now rewrite readWithTimeout_world. Qed.

Lemma probeCost_bounds (e : PortRead) :
  0 <= readCost PROBE_TIMEOUT e <= 1500.
Proof. apply (readCost_bounds PROBE_TIMEOUT e). unfold PROBE_TIMEOUT; lia. Qed.

(** The loop ends within the fuel, never by finding the window closed
    at its head once it has been entered, and writes only probes. *)
Lemma handshakeLoop_total (fuel : nat) :
  forall (start : Z) (w : World),
    clock w - start < HANDSHAKE_TIMEOUT ->
    HANDSHAKE_TIMEOUT - (clock w - start)
      <= 1500 * (Z.of_nat fuel - Z.of_nat (length (inbox w)) - 1) ->
    exists (out : HandshakeOutcome) (w1 : World) (m : nat),
      handshakeLoop fuel start w = Some (out, w1)
      /\ out <> WindowClosed
      /\ wrote (repeat probe (S m)) w w1.
Proof.
  unfold HANDSHAKE_TIMEOUT.
  induction fuel as [|fuel IH]; intros start w Hopen Hfuel; [lia|].
  rewrite handshakeLoop_S. unfold HANDSHAKE_TIMEOUT.
  destruct (Z.ltb_spec (clock w - start) 10000) as [_|]; [|lia].
  pose proof (probeReply_world w) as Hw.
  pose proof (probeCost_bounds (nextRead w)) as Hc.
  assert (Hone : wrote (repeat probe 1) w (snd (probeReply w))).
  { rewrite Hw. unfold wrote; cbn. repeat split; try lia.
    destruct (inbox w); cbn; lia. }
  destruct (acceptsProbe (fst (probeReply w))).
  { exists Negotiated, (snd (probeReply w)), O.
    split; [reflexivity|]. split; [discriminate|exact Hone]. }
  destruct (Z.leb_spec 10000 (clock (snd (probeReply w)) - start)) as [|Hlt].
  { exists TimedOut, (snd (probeReply w)), O.
    split; [reflexivity|]. split; [discriminate|exact Hone]. }
  destruct (IH start (snd (probeReply w)) Hlt) as (out & w1 & m & Hr & Hn & Hm).
  { rewrite Hw. cbn [clock inbox]. unfold nextRead in *.
    destruct (inbox w) as [|e rest]; cbn [tl length] in *.
    - change (readCost PROBE_TIMEOUT Silent) with 1500. lia.
    - lia. }
  exists out, w1, (S m). split; [exact Hr|]. split; [exact Hn|].
  change (repeat probe (S (S m))) with (repeat probe 1 ++ repeat probe (S m)).
  eapply wrote_app; eassumption.
Qed.

Lemma windowUsed_nonneg (reads : list PortRead) : 0 <= windowUsed reads.
Proof.
  induction reads as [|e rest IH]; cbn; [lia|].
  pose proof (probeCost_bounds e). unfold windowUsed in IH. lia.
Qed.

Lemma answeredWithin_false (elapsed : Z) (reads : list PortRead) :
  HANDSHAKE_TIMEOUT <= elapsed -> answeredWithin elapsed reads = false.
Proof.
  intros H. destruct reads as [|e rest]; [reflexivity|]. cbn.
  destruct (Z.ltb_spec elapsed HANDSHAKE_TIMEOUT); [lia|reflexivity].
Qed.

Lemma handshakeLoop_answered (fuel : nat) :
  forall (start : Z) (w : World) (out : HandshakeOutcome) (w1 : World),
    handshakeLoop fuel start w = Some (out, w1) ->
    (out = Negotiated <-> answeredWithin (clock w - start) (inbox w) = true).
Proof.
  induction fuel as [|fuel IH]; intros start w out w1 H; [discriminate|].
  rewrite handshakeLoop_S in H.
  destruct (Z.ltb_spec (clock w - start) HANDSHAKE_TIMEOUT) as [Hlt|Hge].
  2:{ inversion H; subst. rewrite answeredWithin_false by assumption.
      split; discriminate. }
  rewrite acceptsProbe_accepting in H.
  pose proof (probeReply_world w) as Hw.
  assert (Hstep : answeredWithin (clock w - start) (inbox w)
                  = accepting (nextRead w)
                    || answeredWithin
                         (clock (snd (probeReply w)) - start)
                         (inbox (snd (probeReply w)))).
  { rewrite Hw. cbn [clock inbox]. unfold nextRead.
    destruct (inbox w) as [|e rest]; cbn [tl answeredWithin accepting].
    - reflexivity.
    - destruct (Z.ltb_spec (clock w - start) HANDSHAKE_TIMEOUT); [|lia].
      cbn [andb]. do 2 f_equal. lia. }
  rewrite Hstep.
  destruct (accepting (nextRead w)).
  { inversion H; subst. split; reflexivity. }
  cbn [orb].
  destruct (Z.leb_spec HANDSHAKE_TIMEOUT (clock (snd (probeReply w)) - start)).
  { inversion H; subst. rewrite answeredWithin_false by assumption.
    split; discriminate. }
  eapply IH; eassumption.
Qed.

Lemma answeredWithin_spec (reads : list PortRead) :
  forall elapsed : Z,
    answeredWithin elapsed reads = true
    <-> exists (i : nat) (e : PortRead),
          nth_error reads i = Some e /\ accepting e = true
          /\ elapsed + windowUsed (firstn i reads) < HANDSHAKE_TIMEOUT.
Proof.
  induction reads as [|e rest IH]; intros elapsed; cbn [answeredWithin].
  - split; [discriminate|]. intros (i & e & Hi & _).
    destruct i; discriminate.
  - rewrite andb_true_iff, orb_true_iff, Z.ltb_lt, IH. split.
    + intros [Hlt [Hacc|(i & e' & Hi & Hacc & Hw)]].
      * exists O, e. cbn. repeat split; [assumption|lia].
      * exists (S i), e'. cbn [nth_error firstn]. repeat split; try assumption.
        change (windowUsed (e :: firstn i rest))
          with (readCost PROBE_TIMEOUT e + windowUsed (firstn i rest)). lia.
    + intros ([|i] & e' & Hi & Hacc & Hw).
      * cbn in Hi, Hw. inversion Hi; subst. split; [lia|now left].
      * cbn [nth_error firstn] in Hi, Hw.
        change (windowUsed (e :: firstn i rest))
          with (readCost PROBE_TIMEOUT e + windowUsed (firstn i rest)) in Hw.
        pose proof (windowUsed_nonneg (firstn i rest)).
        pose proof (probeCost_bounds e).
        split; [lia|]. right. exists i, e'. repeat split; try assumption. lia.
Qed.

(** ** The end of the transfer *)

(** One pass of the loop.  The one-byte reply buffer never holds ACK
    when a pass starts, so a read that delivers nothing cannot be taken
    for an acknowledgement. *)
Lemma eotLoop_step (k : nat) (total x : Z) (w : World) :
  x <> ACK ->
  exists x' : Z,
    x' <> ACK
    /\ eotLoop (S k) total [x] w
       = if acksEOT (nextRead w) then ((total, None), afterEOT w)
         else eotLoop k total [x'] (tick EOT_PAUSE (afterEOT w)).
Proof.
  intros Hx. cbn [eotLoop].
  pose proof (readWithTimeout_world [x] BLOCK_TIMEOUT (portWrite [EOT] w)) as Hw.
  change (nextRead (portWrite [EOT] w)) with (nextRead w) in Hw.
  change (tick (readCost BLOCK_TIMEOUT (nextRead w))
               (popInbox (portWrite [EOT] w))) with (afterEOT w) in Hw.
  destruct (readWithTimeout [x] BLOCK_TIMEOUT (portWrite [EOT] w))
    as [r w2] eqn:E.
  cbn [snd] in Hw. subst w2.
  unfold readWithTimeout in E.
  change (nextRead (portWrite [EOT] w)) with (nextRead w) in E.
  unfold acksEOT.
  destruct (nextRead w) as [|d [|b data]|d].
  - inversion E; subst. exists x. split; [assumption|reflexivity].
  - destruct (Z.max 0 d <? BLOCK_TIMEOUT); inversion E; subst; cbn.
    + exists x. split; [assumption|].
      destruct (Z.eqb_spec x ACK); [contradiction|reflexivity].
    + exists x. split; [assumption|reflexivity].
  - destruct (Z.max 0 d <? BLOCK_TIMEOUT); inversion E; subst; cbn.
    + destruct (Z.eqb_spec b ACK); [now exists x|].
      exists b. split; [assumption|reflexivity].
    + exists x. split; [assumption|reflexivity].
  - destruct (Z.max 0 d <? BLOCK_TIMEOUT); inversion E; subst; cbn;
      exists x; (split; [assumption|reflexivity]).
Qed.



(** The first acknowledgement ends the loop at once. *)
Lemma eotLoop_acked (k : nat) :
  forall (total x : Z) (w : World) (pre : list PortRead) (e : PortRead)
         (post : list PortRead),
    x <> ACK ->
    inbox w = pre ++ e :: post ->
    (length pre < k)%nat ->
    Forall (fun e => acksEOT e = false) pre ->
    acksEOT e = true ->
    exists w' : World,
      eotLoop k total [x] w = ((total, None), w')
      /\ sent w' = sent w ++ repeat [EOT] (S (length pre))
      /\ inbox w' = post /\ file w' = file w.
Proof.
  induction k as [|k IH]; intros total x w pre e post Hx Hin Hlen Hpre He;
    [lia|].
  destruct (eotLoop_step k total x w Hx) as (x' & Hx' & ->).
  unfold nextRead. rewrite Hin.
  destruct pre as [|p pre]; cbn [app].
  - rewrite He. exists (afterEOT w). unfold afterEOT. rewrite Hin. cbn.
    repeat split.
  - inversion Hpre as [|? ? Hp Hpre']; subst. rewrite Hp.
    destruct (IH total x' (tick EOT_PAUSE (afterEOT w)) pre e post Hx')
      as (w' & Hr & Hs & Hi & Hf); try assumption.
    + cbn. now rewrite Hin.
    + cbn in Hlen; lia.
    + exists w'. split; [exact Hr|]. cbn [tick afterEOT sent file] in *.
      rewrite Hs, <- app_assoc. repeat split; assumption.
Qed.

(** Whatever the replies: only EOT bytes are written, at most [k] of
    them, the count is handed through, and the only error is the
    missing final acknowledgement. *)
Lemma eotLoop_wrote (k : nat) :
  forall (total : Z) (response : list Z) (w : World) (r : Result) (w' : World),
    eotLoop k total response w = (r, w') ->
    exists m : nat,
      sent w' = sent w ++ repeat [EOT] m /\ (m <= k)%nat
      /\ fst r = total
      /\ (snd r = None \/ snd r = Some ErrNoFinalAck).
Proof.
  induction k as [|k IH]; intros total response w r w' H.
  - inversion H; subst. exists O. cbn. rewrite app_nil_r.
    repeat split; auto.
  - cbn [eotLoop] in H.
    pose proof (readWithTimeout_sameOutput response BLOCK_TIMEOUT
                  (portWrite [EOT] w) ltac:(unfold BLOCK_TIMEOUT; lia)) as Hw.
    destruct (readWithTimeout response BLOCK_TIMEOUT (portWrite [EOT] w))
      as [rd w2].
    destruct Hw as (Hs & _). cbn [snd portWrite sent] in Hs.
    destruct (match replyByte rd with Some b => b =? ACK | None => false end).
    + inversion H; subst. exists 1%nat. cbn. repeat split; auto. lia.
    + destruct (IH _ _ _ _ _ H) as (m & Hs' & Hm & Hr & He).
      exists (S m). cbn [tick sent] in Hs'. rewrite Hs', Hs, <- app_assoc.
      repeat split; auto. lia.
Qed.

(** ** What goes on the wire, whatever the receiver and the file do *)

Lemma handshakeLoop_wrote (fuel : nat) :
  forall (start : Z) (w : World) (out : HandshakeOutcome) (w1 : World),
    handshakeLoop fuel start w = Some (out, w1) ->
    exists m : nat,
      wrote (repeat probe m) w w1 /\ (out <> WindowClosed -> (1 <= m)%nat).
Proof.
  induction fuel as [|fuel IH]; intros start w out w1 H; [discriminate|].
  rewrite handshakeLoop_S in H.
  destruct (clock w - start <? HANDSHAKE_TIMEOUT).
  2:{ inversion H; subst. exists O. split; [|congruence].
      unfold wrote; cbn. rewrite app_nil_r. repeat split; lia. }
  assert (Hone : wrote (repeat probe 1) w (snd (probeReply w))).
  { rewrite probeReply_world.
    pose proof (probeCost_bounds (nextRead w)).
    unfold wrote; cbn [sent file fileFault inbox clock repeat].
    repeat split; try lia. destruct (inbox w); cbn; lia. }
  destruct (acceptsProbe (fst (probeReply w))).
  { inversion H; subst. exists 1%nat. split; [exact Hone|lia]. }
  destruct (HANDSHAKE_TIMEOUT <=? clock (snd (probeReply w)) - start).
  { inversion H; subst. exists 1%nat. split; [exact Hone|lia]. }
  destruct (IH _ _ _ _ H) as (m & Hm & _).
  exists (S m). split; [|lia].
  change (repeat probe (S m)) with (repeat probe 1 ++ repeat probe m).
  eapply wrote_app; eassumption.
Qed.

Lemma byte_not_complement (b : Z) :
  0 <= b < 256 -> byte_not b = 255 - b /\ 0 <= byte_not b < 256.
Proof.
  intros Hb.
  assert (Hall : forallb (fun n => Z.lxor (Z.of_nat n) 0xFF =? 255 - Z.of_nat n)
                         (seq 0 256) = true) by (vm_compute; reflexivity).
  rewrite forallb_forall in Hall.
  specialize (Hall (Z.to_nat b)). rewrite Z2Nat.id in Hall by lia.
  unfold byte_not. rewrite (proj1 (Z.eqb_eq _ _) (Hall ltac:(apply in_seq; lia))).
  lia.
Qed.

Lemma byte_add_range (a b : Z) : 0 <= byte_add a b < 256.
Proof. unfold byte_add. apply Z.mod_pos_bound. lia. Qed.


Lemma mkPacket_dataPacket (bn : Z) (buf : list Z) :
  0 <= bn < 256 -> length buf = DATA_SIZE -> dataPacket (mkPacket bn buf).
Proof.
  intros Hb Hl. exists bn, buf. repeat split; try assumption; try lia.
  unfold mkPacket. now rewrite (proj1 (byte_not_complement bn Hb)).
Qed.

Lemma dataPacket_length (p : list Z) : dataPacket p -> length p = 132%nat.
Proof.
  intros (bn & payload & _ & Hl & ->).
  rewrite length_app, length_app, Hl. reflexivity.
Qed.

Lemma Forall_repeat {A : Type} (P : A -> Prop) (a : A) (n : nat) :
  P a -> Forall P (repeat a n).
Proof. intros H; induction n; cbn; constructor; auto. Qed.

Lemma dataLoop_packets (fuel : nat) :
  forall (total bn : Z) (buf : list Z) (w : World)
         (out : DataOutcome) (w' : World),
    0 <= bn < 256 -> length buf = DATA_SIZE ->
    dataLoop fuel total bn buf w = Some (out, w') ->
    exists ps : list (list Z),
      sent w' = sent w ++ ps /\ Forall dataPacket ps.
Proof.
  induction fuel as [|fuel IH]; intros total bn buf w out w' Hb Hlen H;
    [discriminate|].
  cbn [dataLoop] in H.
  destruct (readFull buf w) as [[[n buf1] st] w1] eqn:E.
  destruct (readFull_progress buf w Hlen _ _ _ _ E)
    as (Hb1 & Hn & Hs1 & _).
  set (buf2 := if (n <? DATA_SIZE)%nat then padBuffer n buf1 else buf1) in *.
  assert (Hb2 : length buf2 = DATA_SIZE).
  { unfold buf2. destruct (n <? DATA_SIZE)%nat; [|assumption].
    now rewrite padBuffer_length. }
  assert (Hgo : match sendBlockLoop MAX_RETRIES bn buf2 w1 with
                | (BlockAcked, w2) =>
                    dataLoop fuel (int64_add total (Z.of_nat n))
                             (byte_add bn 1) buf2 w2
                | (BlockCancelled, w2) =>
                    Some (DataFailed total ErrCancelled, w2)
                | (BlockExhausted, w2) =>
                    Some (DataFailed total (ErrMaxRetries bn), w2)
                end = Some (out, w') ->
            exists ps, sent w' = sent w ++ ps /\ Forall dataPacket ps).
  { clear H. intros H.
    destruct (sendBlockLoop MAX_RETRIES bn buf2 w1) as [bo w2] eqn:Hblock.
    destruct (sendBlockLoop_wrote _ _ _ _ _ _ Hblock)
      as (m & (Hs & _) & _).
    pose proof (Forall_repeat dataPacket _ m
                  (mkPacket_dataPacket bn buf2 Hb Hb2)) as Hm.
    destruct bo.
    - destruct (IH _ _ _ _ _ _ (byte_add_range bn 1) Hb2 H) as (ps & Hs' & Hps).
      exists (repeat (mkPacket bn buf2) m ++ ps).
      rewrite Hs', Hs, Hs1, <- app_assoc. split; [reflexivity|].
      apply Forall_app; auto.
    - inversion H; subst. exists (repeat (mkPacket bn buf2) m).
      rewrite Hs, Hs1. auto.
    - inversion H; subst. exists (repeat (mkPacket bn buf2) m).
      rewrite Hs, Hs1. auto. }
  destruct st; [apply Hgo, H| |apply Hgo, H|].
  - inversion H; subst. exists []. rewrite app_nil_r, Hs1. auto.
  - inversion H; subst. exists []. rewrite app_nil_r, Hs1. auto.
Qed.

(** ** The transfer as a whole *)





(** Probes first, then data packets, then EOT bytes, and nothing else. *)
Lemma xmodemSend_wire (fuel : nat) (w : World) (r : Result) (w' : World) :
  xmodemSend fuel w = Some (r, w') ->
  exists (probes packets eots : list (list Z)),
    sent w' = sent w ++ probes ++ packets ++ eots
    /\ Forall (eq probe) probes
    /\ Forall dataPacket packets
    /\ Forall (eq [EOT]) eots.
Proof.
  unfold xmodemSend. intros H.
  destruct (handshakeLoop fuel (clock w) w) as [[out w1]|] eqn:Hh;
    [|discriminate].
  destruct (handshakeLoop_wrote _ _ _ _ _ Hh) as (m & (Hs & _) & _).
  assert (Hp : Forall (eq probe) (repeat probe m))
    by (apply Forall_repeat; reflexivity).
  assert (Hstop : forall x, Some (x, w1) = Some (r, w') ->
            exists probes packets eots,
              sent w' = sent w ++ probes ++ packets ++ eots
              /\ Forall (eq probe) probes /\ Forall dataPacket packets
              /\ Forall (eq [EOT]) eots).
  { intros x Eq; inversion Eq; subst. exists (repeat probe m), [], [].
    rewrite Hs, !app_nil_r. auto. }
  destruct out; [|eapply Hstop; eassumption|eapply Hstop; eassumption].
  destruct (dataLoop fuel 0 1 (repeat 0 DATA_SIZE) w1) as [[dout w2]|] eqn:Hd;
    [|discriminate].
  destruct (dataLoop_packets fuel 0 1 (repeat 0 DATA_SIZE) w1 dout w2
              ltac:(lia) (repeat_length 0 _) Hd)
    as (ps & Hs2 & Hps).
  destruct dout as [total|total e].
  - destruct (eotLoop EOT_RETRIES total [0] w2) as [r2 w3] eqn:He.
    inversion H; subst.
    destruct (eotLoop_wrote _ _ _ _ _ _ He) as (k & Hs3 & _).
    exists (repeat probe m), ps, (repeat [EOT] k).
    rewrite Hs3, Hs2, Hs, <- !app_assoc.
    repeat split; auto. apply Forall_repeat; reflexivity.
  - inversion H; subst. exists (repeat probe m), ps, [].
    rewrite Hs2, Hs, app_nil_r, <- app_assoc. auto.
Qed.

(** ** A run of [xmodemSend] on a sound file, phase by phase *)

Lemma xmodemSend_run (fuel : nat) (w : World) (r : Result) (w' : World) :
  fileFault w = None ->
  xmodemSend fuel w = Some (r, w') ->
  Run w r w'.
Proof.
  unfold xmodemSend. intros Hf H.
  destruct (handshakeLoop fuel (clock w) w) as [[out w1]|] eqn:Hh;
    [|discriminate].
  destruct (handshakeLoop_wrote _ _ _ _ _ Hh)
    as (m & (Hs & Hfl & Hff & Hin & _) & _).
  destruct out.
  - destruct (dataLoop fuel 0 1 (repeat 0 DATA_SIZE) w1) as [[dout w2]|] eqn:Hd;
      [|discriminate].
    destruct (dataLoop_run fuel 0 1 (repeat 0 DATA_SIZE) w1 dout w2
                ltac:(congruence) (repeat_length 0 _)
                ltac:(unfold int64; lia) Hd)
      as (ms & Hs2 & Hok & Hend & Hin2).
    rewrite Hfl in Hs2, Hend. rewrite Hs, <- app_assoc in Hs2.
    destruct dout as [t|t e].
    + eapply RunDataSent with (w2 := w2); try eassumption; [lia|].
      destruct (eotLoop EOT_RETRIES t [0] w2). now inversion H.
    + inversion H; subst. eapply RunDataFailed; try eassumption. reflexivity.
  - inversion H; subst. eapply RunNoHandshake; [now left|eassumption].
  - inversion H; subst. eapply RunNoHandshake; [now right|eassumption].
Qed.

(** ** Attempts that hear neither ACK nor CAN *)



(** ** The handshake: when the accepted reply is in hand *)

Lemma handshakeLoop_arrival (fuel : nat) :
  forall (start : Z) (w w1 : World),
    handshakeLoop fuel start w = Some (Negotiated, w1) ->
    clock w1 - start < HANDSHAKE_TIMEOUT + PROBE_TIMEOUT.
Proof.
  induction fuel as [|fuel IH]; intros start w w1 H; [discriminate|].
  rewrite handshakeLoop_S in H.
  destruct (Z.ltb_spec (clock w - start) HANDSHAKE_TIMEOUT) as [Hlt|];
    [|discriminate].
  destruct (acceptsProbe (fst (probeReply w))).
  - inversion H; subst. rewrite probeReply_world. cbn [clock].
    pose proof (probeCost_bounds (nextRead w)). unfold PROBE_TIMEOUT at 2. lia.
  - destruct (HANDSHAKE_TIMEOUT <=? clock (snd (probeReply w)) - start);
      [discriminate|]. eapply IH; eassumption.
Qed.

(** * The statements of the specification, C1 to C10 *)

(** C1.  On every block of 128 bytes [calculateChecksum] is the sum of
    the bytes modulo 256, whatever the bytes are; the all-zero block
    sums to 0 and the all-0xFF block to 128 * 255 mod 256 = 0x80.  The
    function is a total, state-free fold. *)
Theorem checksum_of_block (data : list Z) :
  length data = DATA_SIZE ->
  calculateChecksum data = byte_sum data mod 256
  /\ 0 <= calculateChecksum data < 256
  /\ calculateChecksum (repeat 0x00 DATA_SIZE) = 0x00
  /\ calculateChecksum (repeat 0xFF DATA_SIZE) = 0x80.
Proof.
  intros _. rewrite !checksum_is_sum, !byte_sum_repeat.
  repeat split; try reflexivity; apply Z.mod_pos_bound; lia.
Qed.

Lemma checksum_of_block_witness :
  length (repeat 0xFF 127 ++ [0x02]) = DATA_SIZE
  /\ calculateChecksum (repeat 0xFF 127 ++ [0x02])
     = byte_sum (repeat 0xFF 127 ++ [0x02]) mod 256.
Proof.
  split; [reflexivity|].
  apply (checksum_of_block (repeat 0xFF 127 ++ [0x02])). reflexivity.
Defined.

(** C10.  [calculateChecksum] is defined on byte sequences of every
    length, gives 0 on the empty one, and sends concatenation to
    addition modulo 256. *)
Theorem checksum_monoid_hom :
  calculateChecksum [] = 0
  /\ forall a b : list Z,
       calculateChecksum (a ++ b)
       = (calculateChecksum a + calculateChecksum b) mod 256.
Proof.
  split; [reflexivity|]. intros a b.
  rewrite !checksum_is_sum, byte_sum_app.
  now rewrite <- Zplus_mod.
Qed.




(** C3, as it is worded, fails: a data packet is 1 + 1 + 1 + 128
    + 1 = 132 bytes long, not 131.  Here a one-byte file is sent to a
    receiver that acknowledges everything; the second write is the data
    packet. *)
Lemma data_packet_is_not_131_bytes :
  exists (r : Result) (w' : World) (p : list Z),
    xmodemSend 12
      (mkWorld 0 [Arrive 10 [CRC_START]; Arrive 5 [ACK]; Arrive 5 [ACK]]
               [] [7] None) = Some (r, w')
    /\ nth_error (sent w') 1 = Some p
    /\ p = [SOH; 1; 254] ++ (7 :: repeat PAD 127) ++ [0xED]
    /\ length p = 132%nat
    /\ length p <> 131%nat.
Proof.
  do 3 eexists. split; [vm_compute; reflexivity|].
  split; [vm_compute; reflexivity|].
  split; [vm_compute; reflexivity|].
  split; [reflexivity|discriminate].
Qed.

(** C3, amended.  Everything [xmodemSend] writes is, in this order,
    probe bursts, data packets and EOT bytes, and every data packet is
    exactly 132 bytes: the block-start marker 0x01, the sequence number,
    its one's complement, the 128 bytes of payload and the checksum of
    the payload. *)
Theorem data_packet_layout (fuel : nat) (w : World) (r : Result) (w' : World) :
  xmodemSend fuel w = Some (r, w') ->
  exists (probes packets eots : list (list Z)),
    sent w' = sent w ++ probes ++ packets ++ eots
    /\ Forall (eq probe) probes
    /\ Forall (eq [EOT]) eots
    /\ Forall (fun p =>
         length p = 132%nat
         /\ exists (bn : Z) (payload : list Z),
              0 <= bn < 256
              /\ length payload = 128%nat
              /\ p = [SOH; bn; 255 - bn] ++ payload
                       ++ [calculateChecksum payload]) packets.
Proof.
  intros H.
  destruct (xmodemSend_wire _ _ _ _ H) as (probes & packets & eots & Hs & Hp & Hd & He).
  exists probes, packets, eots. repeat split; try assumption.
  eapply Forall_impl; [|exact Hd].
  intros p Hpk. split; [now apply dataPacket_length|exact Hpk].
Qed.

Lemma data_packet_layout_witness :
  exists (probes packets eots : list (list Z)),
    [probe; mkPacket 1 (padded [7]); [EOT]] = [] ++ probes ++ packets ++ eots
    /\ Forall (eq probe) probes
    /\ Forall (eq [EOT]) eots
    /\ Forall (fun p =>
         length p = 132%nat
         /\ exists (bn : Z) (payload : list Z),
              0 <= bn < 256
              /\ length payload = 128%nat
              /\ p = [SOH; bn; 255 - bn] ++ payload
                       ++ [calculateChecksum payload]) packets.
Proof.
  exact (data_packet_layout 12
           (mkWorld 0 [Arrive 10 [CRC_START]; Arrive 5 [ACK]; Arrive 5 [ACK]]
                    [] [7] None)
           (1, None)
           (mkWorld 20 [] [probe; mkPacket 1 (padded [7]); [EOT]] [] None)
           eq_refl).
Defined.









(** C7, as it is worded, fails: the window is checked only before
    a probe goes out, so the reply to a probe sent just before the ten
    seconds are over is accepted after them.  Seven stray bytes, each
    1.4 s after its probe, bring the clock to 9.8 s; the eighth probe is
    answered by 'C' at 11.2 s, and the handshake succeeds, the transfer
    with it. *)
Lemma handshake_accepts_reply_after_window :
  exists (w1 w' : World),
    handshakeLoop 20 0
      (mkWorld 0 (repeat (Arrive 1400 [0]) 7
                    ++ [Arrive 1400 [CRC_START]; Arrive 5 [ACK]])
               [] [] None)
    = Some (Negotiated, w1)
    /\ clock w1 = 11200
    /\ HANDSHAKE_TIMEOUT < clock w1
    /\ xmodemSend 20
         (mkWorld 0 (repeat (Arrive 1400 [0]) 7
                       ++ [Arrive 1400 [CRC_START]; Arrive 5 [ACK]])
                  [] [] None)
       = Some ((0, None), w').
Proof.
  do 2 eexists. split; [vm_compute; reflexivity|].
  split; [vm_compute; reflexivity|].
  split; [vm_compute; reflexivity|vm_compute; reflexivity].
Qed.

(** C7, amended.  The handshake always ends, having written nothing but
    probe bursts, and it succeeds exactly when one of the pending reads
    is a 'C' or a NAK that arrives within the 1.5 s wait of its probe,
    that probe being sent while less than ten seconds have gone by;
    such a reply is in hand less than 11.5 s after the start.  Every
    other reply only costs its time.  Otherwise [xmodemSend] returns
    the handshake-timeout error with zero bytes, in the world the
    handshake left, where only probes were written. *)
Theorem handshake_outcome (w : World) :
  exists (out : HandshakeOutcome) (w1 : World) (m : nat),
    handshakeLoop (enoughFuel w) (clock w) w = Some (out, w1)
    /\ sent w1 = sent w ++ repeat probe (S m)
    /\ file w1 = file w
    /\ (out = Negotiated \/ out = TimedOut)
    /\ (out = Negotiated
        <-> exists (i : nat) (e : PortRead),
              nth_error (inbox w) i = Some e
              /\ accepting e = true
              /\ windowUsed (firstn i (inbox w)) < HANDSHAKE_TIMEOUT)
    /\ (out = Negotiated ->
        clock w1 - clock w < HANDSHAKE_TIMEOUT + PROBE_TIMEOUT)
    /\ (out = TimedOut ->
        xmodemSend (enoughFuel w) w = Some ((0, Some ErrHandshakeTimeout), w1)).
Proof.
  destruct (handshakeLoop_total (enoughFuel w) (clock w) w)
    as (out & w1 & m & Hh & Hn & (Hs & Hf & _)).
  { unfold HANDSHAKE_TIMEOUT; lia. }
  { unfold HANDSHAKE_TIMEOUT, enoughFuel; lia. }
  exists out, w1, m. split; [exact Hh|]. split; [exact Hs|].
  split; [exact Hf|].
  split; [destruct out; auto; contradiction|].
  split.
  - rewrite (handshakeLoop_answered _ _ _ _ _ Hh), Z.sub_diag.
    rewrite answeredWithin_spec. reflexivity.
  - split.
    + intros ->. eapply handshakeLoop_arrival; eassumption.
    + intros ->. unfold xmodemSend. now rewrite Hh.
Qed.






(** * Further properties of the code *)

(** ** calculateChecksum: what it detects and what it does not *)

(** X1.  The checksum tells any two blocks apart that differ in one
    byte only: a single corrupted byte never goes unnoticed. *)
Theorem checksum_detects_single_byte (pre post : list Z) (b b' : Z) :
  0 <= b < 256 -> 0 <= b' < 256 -> b <> b' ->
  calculateChecksum (pre ++ b :: post) <> calculateChecksum (pre ++ b' :: post).
Proof.
  intros Hb Hb' Hne. rewrite !checksum_is_sum, !byte_sum_app.
  change (byte_sum (b :: post)) with (b + byte_sum post).
  change (byte_sum (b' :: post)) with (b' + byte_sum post).
  set (x := byte_sum pre + (b + byte_sum post)).
  set (y := byte_sum pre + (b' + byte_sum post)).
  intros Heq.
  pose proof (Z.div_mod x 256 ltac:(lia)) as Hx.
  pose proof (Z.div_mod y 256 ltac:(lia)) as Hy.
  rewrite Heq in Hx. unfold x, y in *. lia.
Qed.

Lemma checksum_detects_single_byte_witness :
  calculateChecksum ([1; 2] ++ 3 :: [4]) <> calculateChecksum ([1; 2] ++ 200 :: [4]).
Proof.
  apply (checksum_detects_single_byte [1; 2] [4] 3 200); lia.
Defined.

Lemma byte_sum_Permutation (a b : list Z) :
  Permutation a b -> byte_sum a = byte_sum b.
Proof.
  unfold byte_sum. induction 1; cbn; lia.
Qed.

(** X2.  The checksum does not see the order of the bytes: a block
    whose bytes have been rearranged has the same checksum. *)
Theorem checksum_blind_to_order (a b : list Z) :
  Permutation a b -> calculateChecksum a = calculateChecksum b.
Proof.
  intros H. rewrite !checksum_is_sum. f_equal. now apply byte_sum_Permutation.
Qed.

Lemma checksum_blind_to_order_witness :
  calculateChecksum [1; 2; 3] = calculateChecksum [3; 1; 2].
Proof.
  apply checksum_blind_to_order.
  apply Permutation_sym, (Permutation_cons_app [1; 2] [] 3). reflexivity.
Defined.

(** ** getGatewayPacket: the packet can be taken apart again *)

(** X3.  With an EUI of eight bytes, which is what [main] insists on,
    the packet is twelve bytes longer than the payload: the header
    02 00 00 00, then the EUI, then the payload untouched; so the EUI
    and the payload can be read back from it. *)
Theorem gateway_packet_parts (rawPayload eui : list Z) :
  length eui = 8%nat ->
  length (getGatewayPacket rawPayload eui) = (12 + length rawPayload)%nat
  /\ firstn 4 (getGatewayPacket rawPayload eui) = [0x02; 0x00; 0x00; 0x00]
  /\ firstn 8 (skipn 4 (getGatewayPacket rawPayload eui)) = eui
  /\ skipn 12 (getGatewayPacket rawPayload eui) = rawPayload.
Proof.
  intros Hl. unfold getGatewayPacket. cbn [app].
  do 8 (destruct eui as [|? eui]; [discriminate|]).
  destruct eui; [|discriminate]. cbn. auto.
Qed.

Lemma gateway_packet_parts_witness :
  skipn 12 (getGatewayPacket [9; 9; 9] [1; 2; 3; 4; 5; 6; 7; 8]) = [9; 9; 9].
Proof.
  apply (gateway_packet_parts [9; 9; 9] [1; 2; 3; 4; 5; 6; 7; 8]). reflexivity.
Defined.

(** ** flushSerialBuffer: what it throws away *)

Lemma flushLoop_step (pending : nat) (w : World) :
  flushLoop pending w
  = let w1 := tick (readCost FLUSH_TIMEOUT (nextRead w)) (popInbox w) in
    if keepsFlushing (nextRead w)
    then match pending with
         | S pending' => flushLoop pending' w1
         | O => w1
         end
    else w1.
Proof.
  rewrite flushLoop_unfold.
  pose proof (readWithTimeout_world (repeat 0 100) FLUSH_TIMEOUT w) as Hw.
  destruct (readWithTimeout (repeat 0 100) FLUSH_TIMEOUT w) as [r w1] eqn:E.
  cbn [snd] in Hw. subst w1. cbv zeta.
  unfold readWithTimeout in E. rewrite repeat_length in E.
  unfold keepsFlushing.
  destruct (nextRead w) as [|d [|x data]|d].
  - inversion E; subst; reflexivity.
  - destruct (Z.max 0 d <? FLUSH_TIMEOUT); inversion E; subst; reflexivity.
  - destruct (Z.max 0 d <? FLUSH_TIMEOUT); inversion E; subst;
      [|reflexivity].
    change 100%nat with (S 99). cbn [firstn length rd_err rd_n].
    destruct pending; reflexivity.
  - destruct (Z.max 0 d <? FLUSH_TIMEOUT); inversion E; subst; reflexivity.
Qed.

Lemma flushLoop_consumes (pre : list PortRead) :
  forall (pending : nat) (w : World) (e : PortRead) (post : list PortRead),
    inbox w = pre ++ e :: post ->
    Forall (fun r => keepsFlushing r = true) pre ->
    keepsFlushing e = false ->
    (length pre <= pending)%nat ->
    flushLoop pending w
    = mkWorld (clock w + flushCost (pre ++ [e])) post (sent w) (file w)
              (fileFault w).
Proof.
  induction pre as [|p pre IH]; intros pending w e post Hin Hpre He Hlen;
    rewrite flushLoop_step; unfold nextRead; rewrite Hin; cbn [app].
  - rewrite He. unfold tick, popInbox. rewrite Hin. cbn.
    now rewrite Z.add_0_r.
  - inversion Hpre as [|? ? Hp Hpre']; subst. rewrite Hp.
    destruct pending as [|pending]; [cbn in Hlen; lia|].
    rewrite (IH pending _ e post); try assumption.
    + cbn [tick popInbox clock sent file fileFault flushCost fold_right app].
      f_equal. fold (flushCost (pre ++ [e])). lia.
    + cbn. now rewrite Hin.
    + cbn in Hlen. lia.
Qed.

(** X4.  The flush discards every pending read up to and including the
    first one that is silent, late, failed or empty, whatever bytes the
    discarded reads carry, and nothing beyond it; it writes nothing and
    takes the time of those reads. *)
Theorem flush_discards_leading_reads
  (w : World) (pre : list PortRead) (e : PortRead) (post : list PortRead) :
  inbox w = pre ++ e :: post ->
  Forall (fun r => keepsFlushing r = true) pre ->
  keepsFlushing e = false ->
  flushSerialBuffer w
  = mkWorld (clock w + flushCost (pre ++ [e])) post (sent w) (file w)
            (fileFault w).
Proof.
  intros Hin Hpre He. unfold flushSerialBuffer.
  apply flushLoop_consumes; try assumption.
  rewrite Hin, length_app. lia.
Qed.

Lemma flush_discards_leading_reads_witness :
  flushSerialBuffer
    (mkWorld 0 [Arrive 5 [ACK]; Arrive 20 [CAN; 1]; Arrive 150 [7]; Arrive 1 [ACK]]
             [] [1] None)
  = mkWorld 125 [Arrive 1 [ACK]] [] [1] None.
Proof.
  apply (flush_discards_leading_reads
           (mkWorld 0 [Arrive 5 [ACK]; Arrive 20 [CAN; 1]; Arrive 150 [7];
                       Arrive 1 [ACK]] [] [1] None)
           [Arrive 5 [ACK]; Arrive 20 [CAN; 1]] (Arrive 150 [7]) [Arrive 1 [ACK]]).
  - reflexivity.
  - repeat constructor.
  - reflexivity.
Defined.

(** X5.  After a reply that is neither ACK nor CAN the flush runs
    before the block is sent again, so an acknowledgement or a cancel
    byte that arrives in the flush is lost: the retry loop goes on with
    one attempt less, as if those bytes had never come. *)
Theorem retry_discards_what_follows_the_reply
  (k : nat) (bn : Z) (buf : list Z) (w : World) (d b : Z) (data : list Z)
  (pre : list PortRead) (e : PortRead) (post : list PortRead) :
  inbox w = Arrive d (b :: data) :: pre ++ e :: post ->
  Z.max 0 d < BLOCK_TIMEOUT ->
  b <> ACK -> b <> CAN ->
  Forall (fun r => keepsFlushing r = true) pre ->
  keepsFlushing e = false ->
  sendBlockLoop (S k) bn buf w
  = sendBlockLoop k bn buf
      (mkWorld (clock w + Z.max 0 d + flushCost (pre ++ [e])) post
               (sent w ++ [mkPacket bn buf]) (file w) (fileFault w)).
Proof.
  intros Hin Hd Hna Hnc Hpre He.
  rewrite sendBlockLoop_S.
  assert (Hr : blockReply bn buf w
               = (mkRead 1 [b] None,
                  mkWorld (clock w + Z.max 0 d) (pre ++ e :: post)
                          (sent w ++ [mkPacket bn buf]) (file w) (fileFault w))).
  { unfold blockReply, readWithTimeout, nextRead, tick, popInbox.
    cbn [portWrite inbox clock sent file fileFault]. rewrite Hin.
    destruct (Z.ltb_spec (Z.max 0 d) BLOCK_TIMEOUT); [|lia]. reflexivity. }
  rewrite Hr. cbn [fst snd replyByte rd_err rd_buf].
  destruct (Z.eqb_spec b ACK); [contradiction|].
  destruct (Z.eqb_spec b CAN); [contradiction|].
  unfold flushSerialBuffer.
  rewrite (flushLoop_consumes pre _
             (mkWorld (clock w + Z.max 0 d) (pre ++ e :: post)
                      (sent w ++ [mkPacket bn buf]) (file w) (fileFault w))
             e post eq_refl Hpre He)
    by (cbn [inbox]; rewrite length_app; lia).
  cbn [clock sent file fileFault]. now destruct (b =? NAK).
Qed.

Lemma retry_discards_what_follows_the_reply_witness :
  sendBlockLoop 2 1 (padded [7])
    (mkWorld 0 [Arrive 5 [NAK]; Arrive 20 [CAN]; Silent; Arrive 5 [ACK]]
             [] [] None)
  = sendBlockLoop 1 1 (padded [7])
      (mkWorld 125 [Arrive 5 [ACK]] [mkPacket 1 (padded [7])] [] None).
Proof.
  apply (retry_discards_what_follows_the_reply 1 1 (padded [7])
           (mkWorld 0 [Arrive 5 [NAK]; Arrive 20 [CAN]; Silent; Arrive 5 [ACK]]
                    [] [] None)
           5 NAK [] [Arrive 20 [CAN]] Silent [Arrive 5 [ACK]]).
  - reflexivity.
  - unfold BLOCK_TIMEOUT; lia.
  - discriminate.
  - discriminate.
  - repeat constructor.
  - reflexivity.
Defined.

(** ** The handshake on a dead line, and how long giving up takes *)

Lemma handshakeLoop_silent (j : nat) :
  forall (fuel : nat) (start : Z) (w : World),
    inbox w = [] ->
    clock w - start = 1500 * (7 - Z.of_nat j) ->
    (1 <= j <= 7)%nat -> (j <= fuel)%nat ->
    handshakeLoop fuel start w
    = Some (TimedOut,
            mkWorld (clock w + 1500 * Z.of_nat j) [] (sent w ++ repeat probe j)
                    (file w) (fileFault w)).
Proof.
  induction j as [|j IH]; intros fuel start w Hin Hc Hj Hf; [lia|].
  destruct fuel as [|fuel]; [lia|].
  rewrite handshakeLoop_S, acceptsProbe_accepting, probeReply_world.
  unfold nextRead. rewrite Hin. cbn [accepting tl clock].
  change (readCost PROBE_TIMEOUT Silent) with 1500.
  unfold HANDSHAKE_TIMEOUT.
  destruct (Z.ltb_spec (clock w - start) 10000); [|lia].
  destruct (Z.leb_spec 10000 (clock w + 1500 - start)).
  - assert (j = O) by lia. subst j. reflexivity.
  - rewrite IH; cbn [inbox clock sent file fileFault]; try lia; [|reflexivity].
    rewrite <- app_assoc. cbn [app repeat].
    replace (clock w + 1500 * Z.of_nat (S j))
      with (clock w + 1500 + 1500 * Z.of_nat j) by lia.
    reflexivity.
Qed.

(** X6.  When the receiver never sends anything, [xmodemSend] writes
    the probe burst seven times, one every 1.5 s, and gives up 10.5 s
    after it started, with the handshake-timeout error and zero bytes;
    the file is not read. *)
Theorem dead_line_times_out (fuel : nat) (w : World) :
  inbox w = [] -> (7 <= fuel)%nat ->
  xmodemSend fuel w
  = Some ((0, Some ErrHandshakeTimeout),
          mkWorld (clock w + 10500) [] (sent w ++ repeat probe 7)
                  (file w) (fileFault w)).
Proof.
  intros Hin Hf. unfold xmodemSend.
  rewrite (handshakeLoop_silent 7 fuel (clock w) w Hin); try lia.
  reflexivity.
Qed.

Lemma dead_line_times_out_witness :
  xmodemSend 7 (mkWorld 40 [] [] [1; 2; 3] None)
  = Some ((0, Some ErrHandshakeTimeout),
          mkWorld 10540 [] (repeat probe 7) [1; 2; 3] None).
Proof.
  apply (dead_line_times_out 7 (mkWorld 40 [] [] [1; 2; 3] None)).
  - reflexivity.
  - lia.
Defined.

(** The only errors of the data loop. *)
Lemma dataLoop_errors (fuel : nat) :
  forall (total bn : Z) (buf : list Z) (w : World) (t : Z)
         (e : TransferError) (w' : World),
    dataLoop fuel total bn buf w = Some (DataFailed t e, w') ->
    e = ErrFileRead \/ e = ErrCancelled \/ exists b : Z, e = ErrMaxRetries b.
Proof.
  induction fuel as [|fuel IH]; intros total bn buf w t e w' H; [discriminate|].
  cbn [dataLoop] in H.
  destruct (readFull buf w) as [[[n buf1] st] w1].
  destruct st; try discriminate;
    try (inversion H; subst; now left);
    (destruct (sendBlockLoop MAX_RETRIES bn _ w1) as [[| |] w2];
     [eapply IH; eassumption
     |inversion H; subst; right; now left
     |inversion H; subst; right; right; eauto]).
Qed.

Lemma handshakeLoop_gives_up (fuel : nat) :
  forall (start : Z) (w w1 : World),
    handshakeLoop fuel start w = Some (TimedOut, w1) ->
    HANDSHAKE_TIMEOUT <= clock w1 - start < HANDSHAKE_TIMEOUT + PROBE_TIMEOUT.
Proof.
  induction fuel as [|fuel IH]; intros start w w1 H; [discriminate|].
  rewrite handshakeLoop_S in H.
  destruct (Z.ltb_spec (clock w - start) HANDSHAKE_TIMEOUT) as [Hlt|];
    [|discriminate].
  destruct (acceptsProbe (fst (probeReply w))); [discriminate|].
  destruct (Z.leb_spec HANDSHAKE_TIMEOUT (clock (snd (probeReply w)) - start))
    as [Hge|].
  - inversion H; subst. split; [exact Hge|].
    rewrite probeReply_world. cbn [clock].
    pose proof (probeCost_bounds (nextRead w)). unfold PROBE_TIMEOUT at 2. lia.
  - eapply IH; eassumption.
Qed.

(** X7.  Whenever [xmodemSend] ends with the handshake-timeout error
    it has spent at least 10 s and less than 11.5 s, has sent zero
    bytes, has written nothing but probe bursts and has left the file
    unread. *)
Theorem handshake_timeout_timing
  (fuel : nat) (w : World) (n : Z) (w' : World) :
  xmodemSend fuel w = Some ((n, Some ErrHandshakeTimeout), w') ->
  n = 0
  /\ HANDSHAKE_TIMEOUT <= clock w' - clock w < HANDSHAKE_TIMEOUT + PROBE_TIMEOUT
  /\ (exists m : nat, sent w' = sent w ++ repeat probe (S m))
  /\ file w' = file w.
Proof.
  unfold xmodemSend. intros H.
  destruct (handshakeLoop fuel (clock w) w) as [[out w1]|] eqn:Hh;
    [|discriminate].
  destruct (handshakeLoop_wrote _ _ _ _ _ Hh) as (m & (Hs & Hfl & _) & Hm).
  destruct out.
  - destruct (dataLoop fuel 0 1 (repeat 0 DATA_SIZE) w1) as [[dout w2]|] eqn:Hd;
      [|discriminate].
    destruct dout as [t|t e].
    + destruct (eotLoop EOT_RETRIES t [0] w2) as [r w3] eqn:He.
      destruct (eotLoop_wrote _ _ _ _ _ _ He) as (k & _ & _ & _ & [Hn|Hn]);
        inversion H; subst; cbn in Hn; discriminate.
    + inversion H; subst.
      destruct (dataLoop_errors _ _ _ _ _ _ _ _ Hd) as [He|[He|[b He]]];
        discriminate.
  - inversion H; subst. split; [reflexivity|].
    split; [eapply handshakeLoop_gives_up; eassumption|].
    split; [|exact Hfl].
    specialize (Hm ltac:(discriminate)). destruct m as [|m]; [lia|].
    now exists m.
  - discriminate.
Qed.

Lemma handshake_timeout_timing_witness :
  HANDSHAKE_TIMEOUT <= 10400 - 0 < HANDSHAKE_TIMEOUT + PROBE_TIMEOUT.
Proof.
  apply (handshake_timeout_timing 9
           (mkWorld 0 (repeat (Arrive 1300 [7]) 8) [] [1] None) 0
           (mkWorld 10400 [] (repeat probe 8) [1] None)).
  vm_compute. reflexivity.
Defined.


(** ** A receiver that accepts everything *)

Lemma blockReply_acked (bn : Z) (buf : list Z) (w : World) (e : PortRead)
  (rest : list PortRead) :
  inbox w = e :: rest -> acksEOT e = true ->
  replyByte (fst (blockReply bn buf w)) = Some ACK
  /\ exists c : Z,
       snd (blockReply bn buf w)
       = mkWorld c rest (sent w ++ [mkPacket bn buf]) (file w) (fileFault w).
Proof.
  intros Hin He. unfold blockReply.
  pose proof (readWithTimeout_world [0] BLOCK_TIMEOUT
                (portWrite (mkPacket bn buf) w)) as Hw.
  unfold readWithTimeout in *. unfold nextRead in *.
  cbn [portWrite inbox] in *. rewrite Hin in *.
  destruct e as [|d [|b data]|d]; try discriminate. cbn [acksEOT] in He.
  apply andb_true_iff in He. destruct He as [Hd Hb].
  apply Z.eqb_eq in Hb. subst b. rewrite Hd in *. cbn [fst snd] in *.
  split; [reflexivity|]. rewrite Hw. unfold tick, popInbox. cbn.
  rewrite Hin. eauto.
Qed.

Lemma dataLoop_cooperative (k : nat) :
  forall (fuel : nat) (total bn : Z) (buf : list Z) (w : World)
         (acks rest : list PortRead),
    fileFault w = None -> length buf = DATA_SIZE -> int64 total ->
    (length (file w) <= DATA_SIZE * k < length (file w) + DATA_SIZE)%nat ->
    inbox w = acks ++ rest -> length acks = k ->
    Forall (fun e => acksEOT e = true) acks ->
    (k < fuel)%nat ->
    exists w' : World,
      dataLoop fuel total bn buf w
      = Some (SourceExhausted (wrap64 (total + Z.of_nat (length (file w)))), w')
      /\ sent w' = sent w ++ blockTrace bn (file w) (repeat 1%nat k)
      /\ inbox w' = rest /\ file w' = [] /\ fileFault w' = None.
Proof.
  induction k as [|k IH];
    intros fuel total bn buf w acks rest Hf Hlen Ht Hk Hin Hacks Hall Hfuel;
    (destruct fuel as [|fuel]; [lia|]).
  - assert (Hnil : file w = []).
    { destruct (file w); [reflexivity|cbn in Hk; unfold DATA_SIZE in Hk; lia]. }
    rewrite dataLoop_eof by assumption. rewrite Hnil.
    destruct acks; [|discriminate]. exists w. cbn.
    rewrite Z.add_0_r, wrap64_id, app_nil_r by assumption. auto.
  - assert (Hne : file w <> []).
    { destruct (file w); [cbn in Hk; unfold DATA_SIZE in Hk; lia|discriminate]. }
    rewrite dataLoop_pass by assumption.
    destruct acks as [|e acks]; [discriminate|].
    inversion Hall as [|? ? He Hall']; subst.
    set (payload := padded (firstn DATA_SIZE (file w))).
    destruct (blockReply_acked bn payload (afterChunk w) e (acks ++ rest)
                Hin He) as (Hr & c & Hw).
    change MAX_RETRIES with (S 9).
    rewrite sendBlockLoop_S, Hr. cbn [Z.eqb ACK Pos.eqb]. rewrite Hw.
    cbn [afterChunk sent file fileFault].
    assert (Hchunk : (length (firstn DATA_SIZE (file w)) <= DATA_SIZE)%nat)
      by (rewrite length_firstn; lia).
    destruct (IH fuel
                (int64_add total (Z.of_nat (length (firstn DATA_SIZE (file w)))))
                (byte_add bn 1) payload
                (mkWorld c (acks ++ rest) (sent w ++ [mkPacket bn payload])
                         (skipn DATA_SIZE (file w)) None)
                acks rest)
      as (w' & Hd & Hs & Hi & Hfl & Hff); try reflexivity; try assumption.
    + now apply padded_length.
    + apply wrap64_int64.
    + cbn [file]. rewrite length_skipn. unfold DATA_SIZE in *. lia.
    + now injection Hacks.
    + lia.
    + exists w'. rewrite Hd. cbn [file sent] in *.
      split.
      * replace (wrap64 (total + Z.of_nat (length (file w))))
          with (wrap64
                  (int64_add total
                     (Z.of_nat (length (firstn DATA_SIZE (file w))))
                   + Z.of_nat (length (skipn DATA_SIZE (file w)))));
          [reflexivity|].
        unfold int64_add. rewrite wrap64_add_l, length_skipn, length_firstn.
        apply (f_equal wrap64). lia.
      * rewrite Hs. cbn [repeat blockTrace]. fold payload.
        rewrite <- app_assoc. auto.
Qed.

(** X9.  With a receiver that answers the first probe with 'C' or NAK
    and then acknowledges every packet and the EOT, [xmodemSend] writes
    one probe burst, each block of the file exactly once, in order and
    numbered from 1, and one EOT; it returns the length of the file and
    no error, and reads nothing beyond those replies. *)
Theorem cooperative_receiver_gets_the_file
  (fuel : nat) (w : World) (e0 : PortRead) (acks : list PortRead)
  (eack : PortRead) (rest : list PortRead) :
  fileFault w = None ->
  inbox w = e0 :: acks ++ eack :: rest ->
  accepting e0 = true ->
  Forall (fun e => acksEOT e = true) acks ->
  acksEOT eack = true ->
  (length (file w) <= DATA_SIZE * length acks < length (file w) + DATA_SIZE)%nat ->
  (length acks < fuel)%nat ->
  exists w' : World,
    xmodemSend fuel w
    = Some ((wrap64 (Z.of_nat (length (file w))), None), w')
    /\ sent w' = sent w ++ [probe]
                   ++ blockTrace 1 (file w) (repeat 1%nat (length acks))
                   ++ [[EOT]]
    /\ inbox w' = rest.
Proof.
  intros Hf Hin H0 Hall Hack Hk Hfuel.
  assert (Hh : handshakeLoop fuel (clock w) w
               = Some (Negotiated,
                       mkWorld (clock w + readCost PROBE_TIMEOUT e0)
                               (acks ++ eack :: rest) (sent w ++ [probe])
                               (file w) (fileFault w))).
  { destruct fuel as [|fuel]; [lia|].
    rewrite handshakeLoop_S, Z.sub_diag.
    change (0 <? HANDSHAKE_TIMEOUT) with true. cbv iota.
    rewrite acceptsProbe_accepting, probeReply_world.
    unfold nextRead. rewrite Hin, H0. reflexivity. }
  unfold xmodemSend. rewrite Hh.
  destruct (dataLoop_cooperative (length acks) fuel 0 1 (repeat 0 DATA_SIZE)
              (mkWorld (clock w + readCost PROBE_TIMEOUT e0)
                       (acks ++ eack :: rest) (sent w ++ [probe]) (file w)
                       (fileFault w))
              acks (eack :: rest))
    as (w2 & Hd & Hs & Hi & Hfl & Hff);
    try reflexivity; try assumption; try (unfold int64; lia).
  rewrite Hd. cbn [file sent] in *. rewrite Z.add_0_l.
  destruct (eotLoop_acked EOT_RETRIES
              (wrap64 (Z.of_nat (length (file w)))) 0 w2 [] eack rest
              ltac:(discriminate) Hi ltac:(unfold EOT_RETRIES; cbn; lia)
              ltac:(constructor) Hack)
    as (w' & Hr & Hs' & Hi' & _).
  exists w'. rewrite Hr. split; [reflexivity|]. split; [|exact Hi'].
  rewrite Hs', Hs. cbn [length repeat]. now rewrite <- !app_assoc.
Qed.

Lemma cooperative_receiver_gets_the_file_witness :
  exists w' : World,
    xmodemSend 3
      (mkWorld 0 [Arrive 10 [NAK]; Arrive 5 [ACK]; Arrive 5 [ACK; 9];
                  Arrive 5 [ACK]; Silent]
               [] (repeat 7 130) None)
    = Some ((wrap64 (Z.of_nat (length (repeat 7 130))), None), w')
    /\ sent w' = [] ++ [probe]
                   ++ blockTrace 1 (repeat 7 130) (repeat 1%nat 2) ++ [[EOT]]
    /\ inbox w' = [Silent].
Proof.
  apply (cooperative_receiver_gets_the_file 3
           (mkWorld 0 [Arrive 10 [NAK]; Arrive 5 [ACK]; Arrive 5 [ACK; 9];
                       Arrive 5 [ACK]; Silent]
                    [] (repeat 7 130) None)
           (Arrive 10 [NAK]) [Arrive 5 [ACK]; Arrive 5 [ACK; 9]]
           (Arrive 5 [ACK]) [Silent]).
  - reflexivity.
  - reflexivity.
  - reflexivity.
  - repeat constructor.
  - reflexivity.
  - cbn [file length]. rewrite repeat_length. unfold DATA_SIZE. lia.
  - cbn [length]. lia.
Defined.

(** ** What a success means *)

Lemma eotLoop_success (k : nat) :
  forall (total : Z) (response : list Z) (w : World) (t : Z) (w' : World),
    eotLoop k total response w = ((t, None), w') ->
    t = total /\ exists m : nat, sent w' = sent w ++ repeat [EOT] (S m).
Proof.
  induction k as [|k IH]; intros total response w t w' H; [discriminate|].
  cbn [eotLoop] in H.
  pose proof (readWithTimeout_sameOutput response BLOCK_TIMEOUT
                (portWrite [EOT] w) ltac:(unfold BLOCK_TIMEOUT; lia)) as Hw.
  destruct (readWithTimeout response BLOCK_TIMEOUT (portWrite [EOT] w))
    as [rd w2].
  destruct Hw as (Hs & _). cbn [snd portWrite sent] in Hs.
  destruct (match replyByte rd with Some b => b =? ACK | None => false end).
  - inversion H; subst. split; [reflexivity|]. now exists O.
  - destruct (IH _ _ _ _ _ H) as (Ht & m & Hs').
    split; [exact Ht|]. exists (S m). cbn [tick sent] in Hs'.
    now rewrite Hs', Hs, <- app_assoc.
Qed.

(** X10.  [xmodemSend] returns no error only when every block of the
    file went out, in order and numbered from 1, each at least once
    and at most ten times, and an EOT was the last thing written; the
    byte count is then the length of the file (as an [int64]). *)
Theorem success_means_all_sent
  (fuel : nat) (w : World) (n : Z) (w' : World) :
  fileFault w = None ->
  xmodemSend fuel w = Some ((n, None), w') ->
  n = wrap64 (Z.of_nat (length (file w)))
  /\ exists (m : nat) (ms : list nat) (j : nat),
       sent w' = sent w ++ repeat probe m ++ blockTrace 1 (file w) ms
                   ++ repeat [EOT] (S j)
       /\ attemptsOk ms
       /\ (length (file w) <= DATA_SIZE * length ms
           < length (file w) + DATA_SIZE)%nat.
Proof.
  intros Hf H.
  destruct (xmodemSend_run _ _ _ _ Hf H)
    as [m [Hr|Hr] _|m ms t e Hr _ _ _|m ms t w2 Hs Hok Hend _ Heot];
    try discriminate.
  destruct (eotLoop_success _ _ _ _ _ _ Heot) as (Ht & j & Hs').
  destruct Hend as [Hcount Hlen]. rewrite Z.add_0_l in Hcount.
  split; [congruence|]. exists m, ms, j.
  rewrite Hs', Hs, <- !app_assoc. auto.
Qed.

Lemma success_means_all_sent_witness :
  3 = wrap64 (Z.of_nat (length [7; 8; 9])).
Proof.
  apply (success_means_all_sent 3
           (mkWorld 0 [Arrive 10 [NAK]; Arrive 5 [ACK]; Arrive 5 [ACK]]
                    [] [7; 8; 9] None)
           3
           (mkWorld 20 [] [probe; mkPacket 1 (padded [7; 8; 9]); [EOT]] [] None)).
  - reflexivity.
  - vm_compute. reflexivity.
Defined.

(** ** A firmware file that cannot be read to its end *)

Lemma readFull_faulty (buf : list Z) (w : World) (k : nat) :
  fileFault w = Some k -> (k < length (file w))%nat ->
  length buf = DATA_SIZE ->
  readFull buf w
  = if (k <? DATA_SIZE)%nat
    then ((k, firstn k (file w) ++ skipn k buf, FileError),
          mkWorld (clock w) (inbox w) (sent w) (skipn k (file w)) (Some O))
    else ((DATA_SIZE, firstn DATA_SIZE (file w), FileOk),
          mkWorld (clock w) (inbox w) (sent w) (skipn DATA_SIZE (file w))
                  (Some (k - DATA_SIZE)%nat)).
Proof.
  intros Hf Hk Hlen. unfold readFull. rewrite Hf, Hlen. cbn [option_map].
  rewrite firstn_firstn.
  assert (Hn : length (firstn (Nat.min DATA_SIZE k) (file w))
               = Nat.min DATA_SIZE k) by (rewrite length_firstn; lia).
  rewrite Hn.
  destruct (Nat.ltb_spec k DATA_SIZE) as [Hlt|Hge].
  - replace (Nat.min DATA_SIZE k) with k by lia.
    destruct (Nat.eqb_spec k DATA_SIZE); [lia|].
    destruct (Nat.ltb_spec k (length (file w))); [|lia].
    cbn [andb]. do 3 f_equal. lia.
  - replace (Nat.min DATA_SIZE k) with DATA_SIZE by lia.
    rewrite Nat.eqb_refl, skipn_all2 by lia. now rewrite app_nil_r.
Qed.

Lemma dataLoop_faulty (fuel : nat) :
  forall (total bn : Z) (buf : list Z) (w : World) (k : nat)
         (out : DataOutcome) (w' : World),
    fileFault w = Some k -> (k < length (file w))%nat ->
    length buf = DATA_SIZE -> int64 total ->
    dataLoop fuel total bn buf w = Some (out, w') ->
    exists (t : Z) (e : TransferError),
      out = DataFailed t e
      /\ (e = ErrFileRead ->
          exists ms : list nat,
            sent w' = sent w ++ blockTrace bn (file w) ms
            /\ attemptsOk ms
            /\ (DATA_SIZE * length ms <= k < DATA_SIZE * length ms + DATA_SIZE)%nat
            /\ t = wrap64 (total + Z.of_nat (DATA_SIZE * length ms))).
Proof.
  induction fuel as [|fuel IH];
    intros total bn buf w k out w' Hf Hk Hlen Ht H; [discriminate|].
  cbn [dataLoop] in H. rewrite (readFull_faulty buf w k Hf Hk Hlen) in H.
  destruct (Nat.ltb_spec k DATA_SIZE) as [Hlt|Hge].
  - inversion H; subst. exists total, ErrFileRead. split; [reflexivity|].
    intros _. exists []. cbn [blockTrace length sent].
    rewrite app_nil_r, Nat.mul_0_r, Z.add_0_r.
    rewrite wrap64_id by assumption.
    split; [reflexivity|]. split; [constructor|].
    split; [lia|reflexivity].
  - rewrite Nat.ltb_irrefl in H.
    assert (Hfull : length (firstn DATA_SIZE (file w)) = DATA_SIZE)
      by (rewrite length_firstn; lia).
    assert (Hpay : firstn DATA_SIZE (file w) = padded (firstn DATA_SIZE (file w))).
    { unfold padded. rewrite Hfull, Nat.sub_diag. cbn. now rewrite app_nil_r. }
    set (w1 := mkWorld (clock w) (inbox w) (sent w) (skipn DATA_SIZE (file w))
                       (Some (k - DATA_SIZE)%nat)) in *.
    destruct (sendBlockLoop MAX_RETRIES bn (firstn DATA_SIZE (file w)) w1)
      as [bo w2] eqn:Hb.
    destruct (sendBlockLoop_wrote _ _ _ _ _ _ Hb)
      as (m & (Hs & Hfl & Hff & _) & Hle & _ & Hn).
    cbn [w1 sent file fileFault] in Hs, Hfl, Hff.
    destruct bo.
    + destruct (IH _ _ _ _ (k - DATA_SIZE)%nat _ _ Hff
                  ltac:(rewrite Hfl, length_skipn; lia) Hfull
                  (wrap64_int64 _) H) as (t & e & Hout & Hfr).
      exists t, e. split; [exact Hout|]. intros He.
      destruct (Hfr He) as (ms & Hs' & Hok & Hrange & Ht').
      exists (m :: ms). rewrite Hs', Hs, Hfl. cbn [blockTrace length].
      rewrite <- Hpay, <- app_assoc.
      split; [reflexivity|]. split.
      { constructor; [|exact Hok]. split; [apply Hn; discriminate|lia]. }
      split; [unfold DATA_SIZE in *; lia|].
      rewrite Ht'. unfold int64_add. rewrite wrap64_add_l.
      apply (f_equal wrap64). unfold DATA_SIZE. lia.
    + inversion H; subst. exists total, ErrCancelled.
      split; [reflexivity|discriminate].
    + inversion H; subst. exists total, (ErrMaxRetries bn).
      split; [reflexivity|discriminate].
Qed.

(** X11.  When reading the firmware file fails at some byte,
    [xmodemSend] never reports success and never gets to the end of
    transmission.  If the transfer gets as far as the failing read, it
    ends with the file-read error after the full blocks before that
    byte, each written and acknowledged, and returns their size; the
    bytes of the failing chunk that were read are not sent. *)
Theorem unreadable_file_never_succeeds
  (fuel : nat) (w : World) (k : nat) (n : Z) (err : option TransferError)
  (w' : World) :
  fileFault w = Some k -> (k < length (file w))%nat ->
  xmodemSend fuel w = Some ((n, err), w') ->
  err <> None /\ err <> Some ErrNoFinalAck
  /\ (err = Some ErrFileRead ->
      exists (m : nat) (ms : list nat),
        sent w' = sent w ++ repeat probe m ++ blockTrace 1 (file w) ms
        /\ attemptsOk ms
        /\ (DATA_SIZE * length ms <= k < DATA_SIZE * length ms + DATA_SIZE)%nat
        /\ n = wrap64 (Z.of_nat (DATA_SIZE * length ms))).
Proof.
  unfold xmodemSend. intros Hf Hk H.
  destruct (handshakeLoop fuel (clock w) w) as [[out w1]|] eqn:Hh;
    [|discriminate].
  destruct (handshakeLoop_wrote _ _ _ _ _ Hh) as (m & (Hs & Hfl & Hff & _) & _).
  destruct out; try (inversion H; subst; repeat split; discriminate).
  destruct (dataLoop fuel 0 1 (repeat 0 DATA_SIZE) w1) as [[dout w2]|] eqn:Hd;
    [|discriminate].
  destruct (dataLoop_faulty fuel 0 1 (repeat 0 DATA_SIZE) w1 k dout w2
              ltac:(congruence) ltac:(rewrite Hfl; exact Hk)
              (repeat_length 0 _) ltac:(unfold int64; lia) Hd)
    as (t & e & -> & Hfr).
  inversion H; subst.
  split; [discriminate|]. split.
  - intros He. injection He as ->.
    destruct (dataLoop_errors _ _ _ _ _ _ _ _ Hd) as [He|[He|[b He]]];
      discriminate.
  - intros He. injection He as ->.
    destruct (Hfr eq_refl) as (ms & Hs' & Hok & Hrange & Ht).
    exists m, ms. rewrite Hs', Hs, Hfl, <- app_assoc.
    rewrite Z.add_0_l in Ht. auto.
Qed.

Lemma unreadable_file_never_succeeds_witness :
  Some ErrFileRead <> None /\ Some ErrFileRead <> Some ErrNoFinalAck.
Proof.
  destruct (unreadable_file_never_succeeds 3
              (mkWorld 0 [Arrive 10 [NAK]; Arrive 5 [ACK]] [] (repeat 7 200)
                       (Some 130%nat))
              130 128 (Some ErrFileRead)
              (mkWorld 15 [] [probe; mkPacket 1 (repeat 7 128)] (repeat 7 70)
                       (Some 0%nat)))
    as (H1 & H2 & _).
  - reflexivity.
  - cbn [file]. rewrite repeat_length. lia.
  - vm_compute. reflexivity.
  - split; assumption.
Defined.

(** ** The padding cannot be told from data *)

Lemma padded_trailing_filler (c : list Z) :
  (length c < DATA_SIZE)%nat -> padded (c ++ [PAD]) = padded c.
Proof.
  intros H. unfold padded. rewrite length_app, <- app_assoc. cbn [length app].
  replace (DATA_SIZE - length c)%nat with (S (DATA_SIZE - (length c + 1)))
    by lia.
  reflexivity.
Qed.

(** X12.  The length of the file is not transmitted: a last chunk and
    the same chunk with one more byte 0x1A at its end lead to the very
    same writes and reads on the port, whatever the receiver answers;
    the two transfers differ only in the byte count returned when the
    block is acknowledged. *)
Theorem trailing_filler_is_invisible
  (fuel : nat) (total bn : Z) (buf : list Z) (w : World) (c : list Z) :
  fileFault w = None -> length buf = DATA_SIZE ->
  file w = c -> (0 < length c < DATA_SIZE)%nat ->
  exists (out out' : DataOutcome) (wf : World),
    dataLoop (S (S fuel)) total bn buf w = Some (out, wf)
    /\ dataLoop (S (S fuel)) total bn buf
         (mkWorld (clock w) (inbox w) (sent w) (c ++ [PAD]) None)
       = Some (out', wf)
    /\ match out, out' with
       | SourceExhausted t, SourceExhausted t' =>
           t = int64_add total (Z.of_nat (length c))
           /\ t' = int64_add total (Z.of_nat (length c) + 1)
       | DataFailed t e, DataFailed t' e' => t = t' /\ e = e'
       | _, _ => False
       end.
Proof.
  intros Hf Hlen Hfile Hc.
  set (w' := mkWorld (clock w) (inbox w) (sent w) (c ++ [PAD]) None).
  assert (Hne : file w <> []).
  { rewrite Hfile. destruct c; [cbn in Hc; lia|discriminate]. }
  assert (Hne' : file w' <> []) by (cbn; destruct c; discriminate).
  rewrite (dataLoop_pass (S fuel) total bn buf w Hf Hlen Hne).
  rewrite (dataLoop_pass (S fuel) total bn buf w' eq_refl Hlen Hne').
  assert (Hlen' : (length (c ++ [PAD]) <= DATA_SIZE)%nat)
    by (rewrite length_app; cbn; lia).
  assert (Hw : afterChunk w' = afterChunk w).
  { unfold afterChunk, w'. cbn [clock inbox sent file].
    rewrite Hfile, !skipn_all2 by lia. reflexivity. }
  cbn [file w']. rewrite Hfile, !firstn_all2 by lia.
  fold w'. rewrite Hw, padded_trailing_filler by lia.
  destruct (sendBlockLoop MAX_RETRIES bn (padded c) (afterChunk w))
    as [bo w2] eqn:Hb.
  destruct (sendBlockLoop_wrote _ _ _ _ _ _ Hb) as (m & (_ & Hfl & Hff & _) & _).
  cbn [afterChunk file fileFault] in Hfl, Hff.
  assert (Hend : file w2 = []) by (rewrite Hfl, Hfile; apply skipn_all2; lia).
  destruct bo.
  - rewrite !dataLoop_eof; try assumption; try (apply padded_length; lia).
    eexists _, _, w2. split; [reflexivity|]. split; [reflexivity|].
    split; [reflexivity|]. rewrite length_app, Nat2Z.inj_add. reflexivity.
  - eexists _, _, w2. repeat split.
  - eexists _, _, w2. repeat split.
Qed.

Lemma trailing_filler_is_invisible_witness :
  exists (out out' : DataOutcome) (wf : World),
    dataLoop 2 0 1 (repeat 0 DATA_SIZE)
             (mkWorld 0 [Arrive 5 [ACK]] [] [7; 8] None) = Some (out, wf)
    /\ dataLoop 2 0 1 (repeat 0 DATA_SIZE)
                (mkWorld 0 [Arrive 5 [ACK]] [] ([7; 8] ++ [PAD]) None)
       = Some (out', wf).
Proof.
  destruct (trailing_filler_is_invisible 0 0 1 (repeat 0 DATA_SIZE)
              (mkWorld 0 [Arrive 5 [ACK]] [] [7; 8] None) [7; 8])
    as (out & out' & wf & H1 & H2 & _).
  - reflexivity.
  - reflexivity.
  - reflexivity.
  - cbn; unfold DATA_SIZE; lia.
  - exists out, out', wf. split; assumption.
Defined.

(** ** The AT script: what a response is, and what counts as an error *)

Lemma string_append_assoc (a b c : String.string) :
  String.append (String.append a b) c = String.append a (String.append b c).
Proof.
  induction a as [|x a IH]; cbn; [reflexivity|]. now rewrite IH.
Qed.

Lemma string_append_nil_r (a : String.string) :
  String.append a String.EmptyString = a.
Proof.
  induction a as [|x a IH]; cbn; [reflexivity|]. now rewrite IH.
Qed.

Section ATScriptProperties.

Variable TrimSpace : String.string -> String.string.

Lemma readResponse_flag (lines : list LineRead) :
  forall (response : String.string) (h1 h2 : bool),
    readResponse TrimSpace lines response h1
    = readResponse TrimSpace lines response h2.
Proof.
  induction lines as [|[line| |] rest IH]; intros response h1 h2; cbn.
  - reflexivity.
  - reflexivity.
  - reflexivity.
  - now destruct h1, h2.
Qed.

Lemma readResponse_lines (pre : list String.string) :
  forall (rest : list LineRead) (response : String.string) (h : bool),
    Forall (fun l => isStatusLine TrimSpace l = false) pre ->
    readResponse TrimSpace (map GotLine pre ++ rest) response h
    = readResponse TrimSpace rest (String.append response (joinLines pre)) h.
Proof.
  induction pre as [|l pre IH]; intros rest response h Hpre; cbn.
  - now rewrite string_append_nil_r.
  - inversion Hpre as [|? ? Hl Hpre']; subst. rewrite Hl.
    rewrite (IH rest _ true Hpre'), string_append_assoc.
    apply readResponse_flag.
Qed.


(** X14.  A module that falls silent is not an error: when the lines
    read before the first timeout, or before the pending lines run out,
    hold no status line, [sendATCommand] returns them as the response
    with no error; with no line at all the response is empty. *)
Theorem at_silence_is_no_error
  (port : ATPort) (command : String.string) (pre : list String.string)
  (rest : list LineRead) :
  hd true (at_writeOk port) = true ->
  at_lines port = map GotLine pre ++ rest ->
  Forall (fun l => isStatusLine TrimSpace l = false) pre ->
  rest = [] \/ (exists post : list LineRead, rest = LineTimeout :: post) ->
  sendATCommand TrimSpace port command
  = ((joinLines pre, None),
     mkATPort (at_written port ++ [String.append command CRLF])
              (tl (at_writeOk port)) (tl rest) (at_slept port)).
Proof.
  intros Hw Hin Hpre Hrest. unfold sendATCommand, atWrite.
  destruct (at_writeOk port) as [|[|] oks]; try discriminate;
    cbn [at_lines at_written at_writeOk at_slept tl];
    rewrite Hin, readResponse_lines by assumption;
    cbn [String.append];
    (destruct Hrest as [->|[post ->]]; reflexivity).
Qed.

(** Which lines a read loop used up, and that only an end of stream
    makes it fail. *)
Lemma readResponse_used (lines : list LineRead) :
  forall (response : String.string) (h : bool) (resp : String.string)
         (err : option ATError) (rest : list LineRead),
    readResponse TrimSpace lines response h = ((resp, err), rest) ->
    (exists used : list LineRead, lines = used ++ rest)
    /\ (forall e : ATError, err = Some e -> e = ATUnexpectedEOF /\ In LineEOF lines).
Proof.
  induction lines as [|[line| |] lines IH]; intros response h resp err rest H;
    cbn in H.
  - inversion H; subst. split; [now exists []|discriminate].
  - destruct (isStatusLine TrimSpace line).
    + inversion H; subst. split; [now exists [GotLine line]|discriminate].
    + destruct (IH _ _ _ _ _ H) as ((used & ->) & He).
      split; [now exists (GotLine line :: used)|].
      intros e Hs. destruct (He e Hs). split; [assumption|now right].
  - inversion H; subst. split; [now exists [LineEOF]|].
    intros e He. inversion He; subst. split; [reflexivity|now left].
  - destruct (negb h); inversion H; subst;
      (split; [now exists [LineTimeout]|discriminate]).
Qed.

(** X15.  [sendATCommand] fails in two ways only.  Either the write
    failed: then nothing was written, no line was read and the response
    is empty.  Or the stream ended while the response was read: then
    the command had gone out.  What the module answers is never an
    error. *)
Theorem at_errors
  (port : ATPort) (command : String.string) (resp : String.string)
  (e : ATError) (port' : ATPort) :
  sendATCommand TrimSpace port command = ((resp, Some e), port') ->
  (e = ATWriteFailed command
   /\ resp = String.EmptyString
   /\ at_written port' = at_written port
   /\ at_lines port' = at_lines port)
  \/ (e = ATUnexpectedEOF
      /\ In LineEOF (at_lines port)
      /\ at_written port' = at_written port ++ [String.append command CRLF]).
Proof.
  unfold sendATCommand, atWrite. intros H.
  destruct (at_writeOk port) as [|[|] oks];
    cbn [at_lines at_written at_writeOk at_slept tl] in H;
    try (inversion H; subst; left; now repeat split);
    (destruct (readResponse TrimSpace (at_lines port) String.EmptyString false)
       as [[r err] rest] eqn:E;
     inversion H; subst;
     destruct (readResponse_used _ _ _ _ _ _ E) as (_ & He);
     destruct (He e eq_refl); right; now repeat split).
Qed.

End ATScriptProperties.


Lemma at_silence_is_no_error_witness :
  sendATCommand (fun s => s) (mkATPort [] [] [] 0) "ATZ"%string
  = ((joinLines [], None),
     mkATPort ([] ++ [String.append "ATZ"%string CRLF]) [] [] 0).
Proof.
  apply (at_silence_is_no_error (fun s => s) (mkATPort [] [] [] 0)
           "ATZ"%string [] []).
  - reflexivity.
  - reflexivity.
  - constructor.
  - now left.
Defined.

Lemma at_errors_witness :
  (ATUnexpectedEOF = ATWriteFailed "ATZ"%string
   /\ "x"%string = String.EmptyString
   /\ [String.append "ATZ"%string CRLF] = []
   /\ [] = [GotLine "x"%string; LineEOF])
  \/ (ATUnexpectedEOF = ATUnexpectedEOF
      /\ In LineEOF [GotLine "x"%string; LineEOF]
      /\ [String.append "ATZ"%string CRLF] = [] ++ [String.append "ATZ"%string CRLF]).
Proof.
  apply (at_errors (fun s => s)
           (mkATPort [] [] [GotLine "x"%string; LineEOF] 0) "ATZ"%string
           "x"%string ATUnexpectedEOF
           (mkATPort [String.append "ATZ"%string CRLF] [] [] 0)).
  reflexivity.
Defined.

(** ** The mode switch: four commands, in order, until one fails *)

Section Phase2Properties.

Variable TrimSpace : String.string -> String.string.

Lemma sendAndVerify_effect (cmd : String.string) (p : ATPort)
  (err : option ATError) (p' : ATPort) :
  sendAndVerify TrimSpace cmd p = (err, p') ->
  at_slept p' = at_slept p
  /\ at_writeOk p' = tl (at_writeOk p)
  /\ (exists used : list LineRead, at_lines p = used ++ at_lines p')
  /\ (at_written p' = at_written p
      \/ at_written p' = at_written p ++ [String.append cmd CRLF])
  /\ (err = None -> at_written p' = at_written p ++ [String.append cmd CRLF])
  /\ (hd true (at_writeOk p) = true -> ~ In LineEOF (at_lines p) -> err = None).
Proof.
  unfold sendAndVerify, sendATCommand, atWrite. intros H.
  destruct (at_writeOk p) as [|[|] oks] eqn:Eok;
    cbn [at_lines at_written at_writeOk at_slept tl hd] in *.
  1,2: destruct (readResponse TrimSpace (at_lines p) String.EmptyString false)
         as [[r e] rest] eqn:E;
       inversion H; subst; cbn [at_lines at_written at_writeOk at_slept];
       destruct (readResponse_used TrimSpace _ _ _ _ _ _ E) as (Hused & He);
       repeat split; auto;
       intros _ Hno; destruct err as [e|]; [|reflexivity];
       destruct (He e eq_refl); contradiction.
  inversion H; subst. cbn [at_lines at_written at_writeOk at_slept].
  repeat split; auto; try discriminate. now exists [].
Qed.

(** X16.  When no write fails and the stream does not end, the mode
    switch goes through all its steps whatever the module answers,
    ERROR or nothing at all included: the four commands go out in
    order, each once, the only pause is the three seconds before the
    last one, and no error is returned. *)
Theorem phase2_ignores_the_replies (port : ATPort) :
  Forall (eq true) (at_writeOk port) ->
  ~ In LineEOF (at_lines port) ->
  exists port' : ATPort,
    phase2_aggressiveModeSwitch TrimSpace port = (None, port')
    /\ at_written port' = at_written port ++ phase2Commands
    /\ at_slept port' = at_slept port + RebootDelay.
Proof.
  intros Hok Hno. unfold phase2_aggressiveModeSwitch.
  assert (Hstep : forall cmd p,
            Forall (eq true) (at_writeOk p) -> ~ In LineEOF (at_lines p) ->
            exists p',
              sendAndVerify TrimSpace cmd p = (None, p')
              /\ Forall (eq true) (at_writeOk p')
              /\ ~ In LineEOF (at_lines p')
              /\ at_written p' = at_written p ++ [String.append cmd CRLF]
              /\ at_slept p' = at_slept p).
  { intros cmd p Hp Hn.
    destruct (sendAndVerify TrimSpace cmd p) as [err p'] eqn:E.
    destruct (sendAndVerify_effect _ _ _ _ E)
      as (Hs & Hw & (used & Hu) & _ & Hwr & Herr).
    assert (err = None) as ->.
    { apply Herr; [|assumption]. destruct Hp; [reflexivity|now symmetry]. }
    exists p'. split; [reflexivity|]. split.
    { rewrite Hw. destruct Hp; [constructor|assumption]. }
    split; [|split; [now apply Hwr|assumption]].
    intros Hin. apply Hn. rewrite Hu. apply in_or_app. now right. }
  destruct (Hstep "AT+MODE=0"%string port Hok Hno)
    as (p1 & -> & Hok1 & Hno1 & Hw1 & Hs1).
  destruct (Hstep "AT+SAVE"%string p1 Hok1 Hno1)
    as (p2 & -> & Hok2 & Hno2 & Hw2 & Hs2).
  destruct (Hstep "ATZ"%string p2 Hok2 Hno2)
    as (p3 & -> & Hok3 & Hno3 & Hw3 & Hs3).
  destruct (Hstep "AT+MODE?"%string (atSleep RebootDelay p3) Hok3 Hno3)
    as (p4 & -> & _ & _ & Hw4 & Hs4).
  exists p4. split; [reflexivity|]. cbn [atSleep at_written at_slept] in *.
  split.
  - rewrite Hw4, Hw3, Hw2, Hw1. unfold phase2Commands.
    now rewrite <- !app_assoc.
  - congruence.
Qed.

(** X17.  The mode switch stops at the first step that fails: what it
    has written is always the first [n] of its four commands, in order
    and each once, where the step that failed bounds [n]; a later
    command is never written after a failure; and the three-second
    pause is taken exactly when the first three steps went through. *)
Theorem phase2_stops_at_first_failure
  (port : ATPort) (res : option Phase2Error) (port' : ATPort) :
  phase2_aggressiveModeSwitch TrimSpace port = (res, port') ->
  exists n : nat,
    at_written port' = at_written port ++ firstn n phase2Commands
    /\ match res with
       | Some (Step1Failed _) =>
           (n <= 1)%nat /\ at_slept port' = at_slept port
       | Some (Step2Failed _) =>
           (1 <= n <= 2)%nat /\ at_slept port' = at_slept port
       | Some (Step3Failed _) =>
           (2 <= n <= 3)%nat /\ at_slept port' = at_slept port
       | Some (VerificationFailed _) =>
           (3 <= n <= 4)%nat /\ at_slept port' = at_slept port + RebootDelay
       | None => n = 4%nat /\ at_slept port' = at_slept port + RebootDelay
       end.
Proof.
  unfold phase2_aggressiveModeSwitch. intros H.
  destruct (sendAndVerify TrimSpace "AT+MODE=0"%string port)
    as [e1 p1] eqn:E1.
  destruct (sendAndVerify_effect _ _ _ _ E1) as (Hs1 & _ & _ & Hw1 & Hn1 & _).
  destruct e1 as [e1|].
  { inversion H; subst. destruct Hw1 as [Hw|Hw].
    - exists 0%nat. cbn. rewrite app_nil_r. auto with arith.
    - exists 1%nat. cbn [firstn phase2Commands]. auto. }
  specialize (Hn1 eq_refl).
  destruct (sendAndVerify TrimSpace "AT+SAVE"%string p1) as [e2 p2] eqn:E2.
  destruct (sendAndVerify_effect _ _ _ _ E2) as (Hs2 & _ & _ & Hw2 & Hn2 & _).
  destruct e2 as [e2|].
  { inversion H; subst. destruct Hw2 as [Hw|Hw].
    - exists 1%nat. cbn [firstn phase2Commands]. rewrite Hw, Hn1.
      split; [reflexivity|]. split; [lia|congruence].
    - exists 2%nat. cbn [firstn phase2Commands]. rewrite Hw, Hn1, <- app_assoc.
      split; [reflexivity|]. split; [lia|congruence]. }
  specialize (Hn2 eq_refl).
  destruct (sendAndVerify TrimSpace "ATZ"%string p2) as [e3 p3] eqn:E3.
  destruct (sendAndVerify_effect _ _ _ _ E3) as (Hs3 & _ & _ & Hw3 & Hn3 & _).
  destruct e3 as [e3|].
  { inversion H; subst. destruct Hw3 as [Hw|Hw].
    - exists 2%nat. cbn [firstn phase2Commands].
      rewrite Hw, Hn2, Hn1, <- app_assoc.
      split; [reflexivity|]. split; [lia|congruence].
    - exists 3%nat. cbn [firstn phase2Commands].
      rewrite Hw, Hn2, Hn1, <- !app_assoc.
      split; [reflexivity|]. split; [lia|congruence]. }
  specialize (Hn3 eq_refl).
  destruct (sendAndVerify TrimSpace "AT+MODE?"%string (atSleep RebootDelay p3))
    as [e4 p4] eqn:E4.
  destruct (sendAndVerify_effect _ _ _ _ E4) as (Hs4 & _ & _ & Hw4 & Hn4 & _).
  cbn [atSleep at_written at_slept] in *.
  destruct e4 as [e4|].
  { inversion H; subst. destruct Hw4 as [Hw|Hw].
    - exists 3%nat. cbn [firstn phase2Commands].
      rewrite Hw, Hn3, Hn2, Hn1, <- !app_assoc.
      split; [reflexivity|]. split; [lia|congruence].
    - exists 4%nat. cbn [firstn phase2Commands].
      rewrite Hw, Hn3, Hn2, Hn1, <- !app_assoc.
      split; [reflexivity|]. split; [lia|congruence]. }
  inversion H; subst. exists 4%nat. cbn [firstn phase2Commands].
  rewrite (Hn4 eq_refl), Hn3, Hn2, Hn1, <- !app_assoc.
  split; [reflexivity|]. split; [reflexivity|congruence].
Qed.

End Phase2Properties.

Lemma phase2_ignores_the_replies_witness :
  exists port' : ATPort,
    phase2_aggressiveModeSwitch (fun s => s)
      (mkATPort [] [true] [GotLine "ERROR"%string; LineTimeout] 0)
    = (None, port')
    /\ at_written port' = [] ++ phase2Commands
    /\ at_slept port' = 0 + RebootDelay.
Proof.
  apply (phase2_ignores_the_replies (fun s => s)
           (mkATPort [] [true] [GotLine "ERROR"%string; LineTimeout] 0)).
  - repeat constructor.
  - cbn. intros [H|[H|H]]; [discriminate|discriminate|exact H].
Defined.

Lemma phase2_stops_at_first_failure_witness :
  exists n : nat,
    [String.append "AT+MODE=0"%string CRLF] = [] ++ firstn n phase2Commands
    /\ (1 <= n <= 2)%nat /\ 0 = 0.
Proof.
  apply (phase2_stops_at_first_failure (fun s => s)
           (mkATPort [] [true; false] [GotLine "OK"%string] 0)
           (Some (Step2Failed (ATWriteFailed "AT+SAVE"%string)))
           (mkATPort [String.append "AT+MODE=0"%string CRLF] [] [] 0)).
  reflexivity.
Defined.
